(** * process-earnings.js: the earnings batch job, embedded and verified

    The development follows the source file top-down:
    - JavaScript numbers are IEEE binary64 values ([spec_float] at
      precision 53), so price arithmetic rounds where the program rounds;
    - [Date] objects are their time value in milliseconds since the epoch,
      or no value at all for an Invalid Date;
    - the Redis cache is a finite map from keys to (value, expiry) pairs;
    - the network is an oracle: every fetch and every cache write gets its
      response from a [SymbolIO] record handed to [processSymbol];
    - a [try]/[catch] is an explicit [outcome] with [Return] and [Throw];
    - what [new Date(text)] makes of a text is left to the engine: the
      program is verified for every parser, and run on worked inputs with
      the one that reads the date-only ISO form. *)

From Stdlib Require Import ZArith List String Ascii Bool Lia Sorted SpecFloat.
From stdpp Require Import gmap strings list.
From Equations Require Import Equations.
Import ListNotations.
Local Open Scope string_scope.
Local Open Scope Z_scope.

(* ===================================================================== *)
(** ** Completion of a JavaScript computation *)
(* ===================================================================== *)

Inductive error := FetchError | RangeError | RedisError.

Inductive outcome (A : Type) :=
| Return (a : A)
| Throw (e : error).
Arguments Return {A} a.
Arguments Throw {A} e.

Definition obind {A B} (m : outcome A) (k : A -> outcome B) : outcome B :=
  match m with
  | Return a => k a
  | Throw e => Throw e
  end.

Notation "'let!' x ':=' m 'in' k" := (obind m (fun x => k))
  (at level 10, x name, m at level 100, k at level 200, only parsing).

(** [try { body } catch (error) { return null }] *)
Definition try_catch_null {A} (body : outcome (option A)) : outcome (option A) :=
  match body with
  | Return r => Return r
  | Throw _ => Return None
  end.

(** [Promise.all]: resolves with every value when every promise resolved,
    rejects with the first rejection otherwise. *)
Fixpoint Promise_all {A} (ps : list (outcome A)) : outcome (list A) :=
  match ps with
  | [] => Return []
  | p :: rest =>
      let! a := p in
      let! others := Promise_all rest in
      Return (a :: others)
  end.

(* ===================================================================== *)
(** ** JavaScript numbers *)
(* ===================================================================== *)

Module Number.

Abbreviation t := spec_float.

Definition prec : Z := 53.
Definition emax : Z := 1024.

Definition of_Z (z : Z) : t := binary_normalize prec emax z 0 false.
Definition of_nat (n : nat) : t := of_Z (Z.of_nat n).

Definition add : t -> t -> t := SFadd prec emax.
Definition sub : t -> t -> t := SFsub prec emax.
Definition mul : t -> t -> t := SFmul prec emax.
Definition div : t -> t -> t := SFdiv prec emax.
Definition abs : t -> t := SFabs.
(** [x > y] *)
Definition gt (x y : t) : bool := SFltb y x.

(** ToBoolean on a number: [0], [-0] and [NaN] are falsy. *)
Definition truthy (x : t) : bool :=
  match x with
  | S754_zero _ | S754_nan => false
  | _ => true
  end.

(** [parseFloat(x)] on a value that is a number already: the number is
    printed and read back, which returns it unchanged except that [-0]
    prints as "0".  A [close] that is missing or not numeric parses to
    [NaN], and is represented by [NaN] in a price point. *)
Definition parseFloat (x : t) : t :=
  match x with
  | S754_zero _ => S754_zero false
  | _ => x
  end.

(** *** [parseFloat(x.toFixed(2))] *)

(** The magnitude of a finite number is [m * 2^e]; as a fraction of
    integers it is [fst / snd]. *)
Definition magnitude (m : positive) (e : Z) : Z * Z :=
  (Z.pos m * 2 ^ Z.max e 0, 2 ^ Z.max (- e) 0).

(** Number.prototype.toFixed, step "let n be an integer for which
    n / 10^f - x is as close to zero as possible; if there are two such
    n, pick the larger n", for [f = 2] and [x = num / den >= 0]. *)
Definition toFixed_n (num den : Z) : Z :=
  let lo := (100 * num) / den in
  let hi := lo + 1 in
  if hi * den - 100 * num <=? 100 * num - lo * den then hi else lo.

(** Reading the digits [n / 100] (with the sign that [toFixed] printed)
    back with [parseFloat]: the double nearest to the decimal. *)
Definition parse_hundredths (s : bool) (n : Z) : t :=
  match n with
  | Z0 => S754_zero s
  | Zpos p => SFdiv prec emax (S754_finite s p 0) (S754_finite false 100 0)
  | Zneg _ => S754_nan
  end.

(** [toFixed] prints numbers of magnitude [>= 1e21], infinities and
    [NaN] with ToString, which [parseFloat] reads back unchanged. *)
Definition roundFixed2 (x : t) : t :=
  match x with
  | S754_finite s m e =>
      let '(num, den) := magnitude m e in
      if 10 ^ 21 * den <=? num then x
      else parse_hundredths s (toFixed_n num den)
  | S754_zero _ => S754_zero false
  | _ => x
  end.

End Number.

(* ===================================================================== *)
(** ** JavaScript dates *)
(* ===================================================================== *)

Module JSDate.

(** A [Date] object: its time value, [None] for an Invalid Date. *)
Definition t := option Z.

Definition msPerDay : Z := 86400000.
Definition maxTime : Z := 8640000000000000.

(** [new Date(value)] clips the time value to the supported range. *)
Definition TimeClip (v : Z) : t :=
  if Z.abs v <=? maxTime then Some v else None.

(** [new Date(d.getTime() + delta)] *)
Definition shifted (d : t) (delta : Z) : t :=
  match d with
  | Some v => TimeClip (v + delta)
  | None => None
  end.

(** [a > b] on two dates compares the time values; a comparison with
    NaN is false. *)
Definition gt (a b : t) : bool :=
  match a, b with
  | Some x, Some y => y <? x
  | _, _ => false
  end.

(** Year, month and day of the month of a day number (days since
    1970-01-01), in the proleptic Gregorian calendar. *)
Definition civil_from_days (day : Z) : Z * Z * Z :=
  let z := day + 719468 in
  let era := z / 146097 in
  let doe := z - era * 146097 in
  let yoe := (doe - doe / 1460 + doe / 36524 - doe / 146096) / 365 in
  let doy := doe - (365 * yoe + yoe / 4 - yoe / 100) in
  let mp := (5 * doy + 2) / 153 in
  let d := doy - (153 * mp + 2) / 5 + 1 in
  let m := if mp <? 10 then mp + 3 else mp - 9 in
  let y := yoe + era * 400 in
  (if m <=? 2 then y + 1 else y, m, d).

Definition days_from_civil (y m d : Z) : Z :=
  let y' := if m <=? 2 then y - 1 else y in
  let era := y' / 400 in
  let yoe := y' - era * 400 in
  let doy := (153 * (if 2 <? m then m - 3 else m + 9) + 2) / 5 + d - 1 in
  let doe := yoe * 365 + yoe / 4 - yoe / 100 + doy in
  era * 146097 + doe - 719468.

Definition digit (n : Z) : ascii := ascii_of_nat (48 + Z.to_nat (n mod 10)).

(** The [w] low decimal digits of [n], most significant first. *)
Fixpoint digits (w : nat) (n : Z) : string :=
  match w with
  | O => EmptyString
  | S w' => digits w' (n / 10) +:+ String (digit n) EmptyString
  end.

Definition year_string (y : Z) : string :=
  if (0 <=? y) && (y <=? 9999) then digits 4 y
  else (if y <? 0 then "-" else "+") +:+ digits 6 (Z.abs y).

(** [new Date(v).toISOString().split('T')[0]] for a valid time value. *)
Definition isoDate (v : Z) : string :=
  let '(y, m, d) := civil_from_days (v / msPerDay) in
  year_string y +:+ "-" +:+ digits 2 m +:+ "-" +:+ digits 2 d.

(** [d.toISOString().split('T')[0]]; [toISOString] throws a RangeError
    on an Invalid Date. *)
Definition toISODate (d : t) : outcome string :=
  match d with
  | Some v => Return (isoDate v)
  | None => Throw RangeError
  end.

(** Reading a date-only ISO string "YYYY-MM-DD" as Node does: midnight
    UTC of that day, for a month from 1 to 12 and a day from 1 to 31; a
    day past the end of its month runs into the next month.  What an
    engine makes of any other text is its own business, so the program
    is verified against an arbitrary parser and this one only serves the
    worked examples. *)
Definition digit_val (c : ascii) : option Z :=
  let n := Z.of_nat (nat_of_ascii c) in
  if (48 <=? n) && (n <=? 57) then Some (n - 48) else None.

Fixpoint read_digits (acc : Z) (cs : list ascii) : option Z :=
  match cs with
  | [] => Some acc
  | c :: rest =>
      match digit_val c with
      | Some v => read_digits (10 * acc + v) rest
      | None => None
      end
  end.

Definition parseISODate (s : string) : t :=
  match list_ascii_of_string s with
  | [y1; y2; y3; y4; "-"%char; m1; m2; "-"%char; d1; d2] =>
      match read_digits 0 [y1; y2; y3; y4], read_digits 0 [m1; m2], read_digits 0 [d1; d2] with
      | Some y, Some m, Some d =>
          if (1 <=? m) && (m <=? 12) && (1 <=? d) && (d <=? 31)
          then TimeClip (days_from_civil y m d * msPerDay)
          else None
      | _, _, _ => None
      end
  | _ => None
  end.

End JSDate.

(* ===================================================================== *)
(** ** Data exchanged with the providers and the cache *)
(* ===================================================================== *)

(** One record of the price history: [{date, close, ...}]. *)
Module PricePoint.
Record t := { date : string; close : Number.t }.
End PricePoint.

(** One record of the earnings calendar: [{date, ...}]. *)
Module Earning.
Record t := { date : string }.
End Earning.

(** What [fetchJSON] settles to: a rejection (network fault, status other
    than 200 and 404, body that is not JSON), the marker [{notFound: true}]
    for a 404, or the parsed body. *)
Inductive fetched (A : Type) :=
| Rejected
| NotFound
| Body (a : A).
Arguments Rejected {A}.
Arguments NotFound {A}.
Arguments Body {A} a.

(** The calendar body; [earnings] is [None] when the field is absent. *)
Record EarningsData := { earnings : option (list Earning.t) }.

(** The price body: an array of price points, or something else. *)
Inductive PriceData :=
| NotAnArray
| PriceArray (points : list PricePoint.t).

(** The object stored in Redis and returned by [processSymbol]. *)
Record Summary := {
  symbol : string;
  nextDate : string;
  avgMove : Number.t;
  lastUpdated : string
}.

(** The cache: key to (value, expiry in seconds). *)
Abbreviation Store := (gmap string (Summary * Z)).

(** How the cache answers a [set]: it succeeds, or the call rejects, and
    then the value may or may not have been written. *)
Inductive SetReply :=
| SetOk
| SetFailed (written : bool).

Definition redis_set (reply : SetReply) (key : string) (value : Summary) (ex : Z)
    (st : Store) : Store * outcome unit :=
  match reply with
  | SetOk => (<[key := (value, ex)]> st, Return tt)
  | SetFailed written =>
      (if written then <[key := (value, ex)]> st else st, Throw RedisError)
  end.

(** Everything one call of [processSymbol] reads from outside: the clock
    at its start, the two fetches, the cache's answer, and the clock text
    stamped on the result. *)
Record SymbolIO := {
  today : Z;
  calendar : fetched EarningsData;
  priceHistory : fetched PriceData;
  redisReply : SetReply;
  stamp : string
}.

(* ===================================================================== *)
(** ** findPriceOnDate *)
(* ===================================================================== *)

(** The loop [for (let i = 0; i < 5; i++)], entered at [i] with [n]
    iterations left. *)
Fixpoint findPriceOnDate_loop (n : nat) (i : Z) (priceData : list PricePoint.t)
    (targetDate : JSDate.t) : outcome (option Number.t) :=
  match n with
  | O => Return None
  | S n' =>
      let dateToTry := JSDate.shifted targetDate (- (i * JSDate.msPerDay)) in
      let! dateString := JSDate.toISODate dateToTry in
      match find (fun d => String.eqb (PricePoint.date d) dateString) priceData with
      | Some match_ => Return (Some (Number.parseFloat (PricePoint.close match_)))
      | None => findPriceOnDate_loop n' (i + 1) priceData targetDate
      end
  end.

Definition findPriceOnDate (priceData : list PricePoint.t) (targetDate : JSDate.t)
    : outcome (option Number.t) :=
  findPriceOnDate_loop 5 0 priceData targetDate.

(* ===================================================================== *)
(** ** processSymbol *)
(* ===================================================================== *)

Definition BATCH_SIZE : nat := 900.

(** ToBoolean on what [findPriceOnDate] returned: [null] is falsy. *)
Definition truthy (p : option Number.t) : bool :=
  match p with
  | Some x => Number.truthy x
  | None => false
  end.

(** [Math.abs((afterPrice - beforePrice) / beforePrice) * 100] *)
Definition percentMove (beforePrice afterPrice : Number.t) : Number.t :=
  Number.mul (Number.abs (Number.div (Number.sub afterPrice beforePrice) beforePrice))
             (Number.of_Z 100).

(** [moves.reduce((a, b) => a + b, 0) / moves.length] *)
Definition average (moves : list Number.t) : Number.t :=
  Number.div (fold_left Number.add moves (Number.of_Z 0))
             (Number.of_nat (length moves)).

(** What the scheduler does, in order: a group handed to [Promise.all],
    or a [sleep]. *)
Inductive event :=
| Group (batch : list string)
| Sleep (ms : Z).

Record Run := {
  processed : nat;
  successful : nat;
  failed : nat;
  cache : Store;
  trace : list event
}.

(** [SYMBOLS.slice(i, j)] *)
Definition slice {A} (l : list A) (i j : nat) : list A := take (j - i) (drop i l).

Definition isNull (r : option Summary) : bool :=
  match r with None => true | Some _ => false end.

(* ===================================================================== *)
(** ** fetchJSON and getAllSymbols *)
(* ===================================================================== *)

(** What [https.get] delivers for one request: an ['error'] event, or a
    response with its status code and the chunks of its body, in the
    order of their arrival. *)
Inductive HttpResult :=
| NetworkError
| Response (statusCode : Z) (chunks : list string).

(** [let data = ''; res.on('data', chunk => data += chunk)] *)
Definition received (chunks : list string) : string :=
  fold_left (fun data chunk => data +:+ chunk) chunks "".

(** [fetchJSON(url)], [JSON_parse] being [JSON.parse] followed by the
    reading of the value at the type the caller uses it at ([None] when
    [JSON.parse] throws). *)
Definition fetchJSON {J : Type} (JSON_parse : string -> option J) (r : HttpResult)
    : fetched J :=
  match r with
  | NetworkError => Rejected
  | Response statusCode chunks =>
      let data := received chunks in
      if statusCode =? 200 then
        match JSON_parse data with
        | Some value => Body value
        | None => Rejected
        end
      else if statusCode =? 404 then NotFound
      else Rejected
  end.

(** One record of the symbol list: [{Code: "AAPL", Name: "Apple Inc"}]. *)
Record Stock := { Code : string }.

(** The body of the symbol list: an array of records, or any other value,
    on which [exchanges.map(stock => stock.Code)] throws. *)
Inductive SymbolListBody :=
| NotAList
| StockList (stocks : list Stock).

(** [getAllSymbols()], given what its [fetchJSON] settled to; [None] is
    the [catch] branch, which ends the process with [process.exit(1)].
    The marker [{notFound: true}] of a 404 has no [map] either. *)
Definition getAllSymbols (exchanges : fetched SymbolListBody) : option (list string) :=
  match exchanges with
  | Body (StockList stocks) => Some (map Code stocks)
  | Body NotAList | NotFound | Rejected => None
  end.

(** How the process ends: [process.exit(code)] before anything was
    processed, [main] resolved, or [main] rejected and
    [.catch(console.error)] logged the error. *)
Inductive ProcessEnd :=
| Exit (code : Z) (st : Store)
| Completed (run : Run)
| Logged (e : error).

Section ProcessSymbol.

(** [new Date(text)]: the engine's date parser. *)
Variable Date_parse : string -> JSDate.t.

(** The body of [for (const earning of earningsData.earnings)]: the
    move to push, if any. *)
Definition earningMove (priceData : list PricePoint.t) (earning : Earning.t)
    : outcome (option Number.t) :=
  let earningsDate := Date_parse (Earning.date earning) in
  let! beforePrice :=
    findPriceOnDate priceData (JSDate.shifted earningsDate (- JSDate.msPerDay)) in
  let! afterPrice :=
    findPriceOnDate priceData (JSDate.shifted earningsDate JSDate.msPerDay) in
  match beforePrice, afterPrice with
  | Some b, Some a =>
      if truthy beforePrice && truthy afterPrice && Number.gt b (Number.of_Z 0)
      then Return (Some (percentMove b a))
      else Return None
  | _, _ => Return None
  end.

(** The whole loop, [moves] being the array built so far. *)
Fixpoint collectMoves (priceData : list PricePoint.t) (evs : list Earning.t)
    (moves : list Number.t) : outcome (list Number.t) :=
  match evs with
  | [] => Return moves
  | earning :: rest =>
      let! m := earningMove priceData earning in
      collectMoves priceData rest
        (match m with Some x => moves ++ [x] | None => moves end)
  end.

(** [earningsData.earnings.filter(e => new Date(e.date) > today)] *)
Definition futureEarnings (now : Z) (evs : list Earning.t) : list Earning.t :=
  List.filter (fun e => JSDate.gt (Date_parse (Earning.date e)) (Some now)) evs.

(** [futureEarnings.length > 0 ? futureEarnings[0].date : null] *)
Definition nextDateOf (now : Z) (evs : list Earning.t) : option string :=
  match futureEarnings now evs with
  | e :: _ => Some (Earning.date e)
  | [] => None
  end.

(** The [try] block of [processSymbol].  The two URLs and the log lines
    are left out: building them does not throw, and what the fetches
    answer is in [io].  The price history is asked for only once the
    calendar has given events. *)
Definition processSymbol_try (io : SymbolIO) (sym : string) (st : Store)
    : Store * outcome (option Summary) :=
  match calendar io with
  | Rejected => (st, Throw FetchError)
  | NotFound => (st, Return None)
  | Body earningsData =>
  match earnings earningsData with
  | None | Some [] => (st, Return None)
  | Some evs =>
  match priceHistory io with
  | Rejected => (st, Throw FetchError)
  | NotFound | Body NotAnArray => (st, Return None)
  | Body (PriceArray priceData) =>
  if (length priceData <? 10)%nat then (st, Return None) else
  match collectMoves priceData evs [] with
  | Throw e => (st, Throw e)
  | Return moves =>
  if (length moves =? 0)%nat then (st, Return None) else
  let avg := average moves in
  match nextDateOf (today io) evs with
  | None | Some "" => (st, Return None)
  | Some next =>
      let result := {| symbol := sym;
                       nextDate := next;
                       avgMove := Number.roundFixed2 avg;
                       lastUpdated := stamp io |} in
      match redis_set (redisReply io) ("earnings:" +:+ sym) result 2592000 st with
      | (st', Return _) => (st', Return (Some result))
      | (st', Throw e) => (st', Throw e)
      end
  end end end end end.

(** [processSymbol]: the [try] block, and [catch (error) { return null }]. *)
Definition processSymbol (io : SymbolIO) (sym : string) (st : Store)
    : Store * outcome (option Summary) :=
  let '(st', r) := processSymbol_try io sym st in
  (st', try_catch_null r).

(* =================================================================== *)
(** ** main *)
(* =================================================================== *)

(** [batch.map(symbol => processSymbol(symbol))]; the symbol at position
    [i] of the universe talks to [world i].  The calls of one group share
    nothing but the cache, where each writes at most once, under the key
    of its own symbol; they are run here in the order of the group. *)
Fixpoint startBatch (world : nat -> SymbolIO) (i : nat) (batch : list string)
    (st : Store) : Store * list (outcome (option Summary)) :=
  match batch with
  | [] => (st, [])
  | sym :: rest =>
      let '(st1, p) := processSymbol (world i) sym st in
      let '(st2, ps) := startBatch world (S i) rest st1 in
      (st2, p :: ps)
  end.

Equations? main_loop (world : nat -> SymbolIO) (SYMBOLS : list string) (i : nat)
    (run : Run) : outcome Run by wf (length SYMBOLS - i)%nat lt :=
  main_loop world SYMBOLS i run with lt_dec i (length SYMBOLS) => {
    | right _ := Return run
    | left _ :=
        let batch := slice SYMBOLS i (i + BATCH_SIZE) in
        let started := startBatch world i batch (cache run) in
        match Promise_all (snd started) with
        | Throw e => Throw e
        | Return results =>
            main_loop world SYMBOLS (i + BATCH_SIZE)
              {| processed := processed run + length batch;
                 successful := successful run
                               + length (List.filter (fun r => negb (isNull r)) results);
                 failed := failed run + length (List.filter isNull results);
                 cache := fst started;
                 trace := trace run ++ Group batch ::
                          (if lt_dec (i + BATCH_SIZE) (length SYMBOLS)
                           then [Sleep 60000] else []) |}
        end }.
Proof. unfold BATCH_SIZE. lia. Qed.

Definition main (world : nat -> SymbolIO) (SYMBOLS : list string) (st : Store)
    : outcome Run :=
  main_loop world SYMBOLS 0
    {| processed := 0; successful := 0; failed := 0; cache := st; trace := [] |}.

(** The move one event contributes, if it contributes one. *)
Definition observation (priceData : list PricePoint.t) (e : Earning.t) : option Number.t :=
  match earningMove priceData e with
  | Return m => m
  | Throw _ => None
  end.

(** The moves of a list of events, in the order of the events. *)
Definition observations (priceData : list PricePoint.t) (evs : list Earning.t)
    : list Number.t :=
  omap (observation priceData) evs.

(** The value [processSymbol] resolves with. *)
Definition resultOf (io : SymbolIO) (sym : string) : option Summary :=
  match snd (processSymbol io sym ∅) with
  | Return r => r
  | Throw _ => None
  end.

(** [r] is the object [processSymbol] builds from [io] for [sym]: there
    are events and prices, at least one move, and a future event. *)
Definition built (io : SymbolIO) (sym : string) (r : Summary) : Prop :=
  exists evs priceData next,
    calendar io = Body {| earnings := Some evs |} /\
    priceHistory io = Body (PriceArray priceData) /\
    (10 <= length priceData)%nat /\
    collectMoves priceData evs [] = Return (observations priceData evs) /\
    observations priceData evs <> [] /\
    nextDateOf (today io) evs = Some next /\
    next <> "" /\
    r = {| symbol := sym; nextDate := next;
           avgMove := Number.roundFixed2 (average (observations priceData evs));
           lastUpdated := stamp io |}.

(** What every symbol of the universe resolves with, in order. *)
Definition allResults (world : nat -> SymbolIO) (SYMBOLS : list string)
    : list (option Summary) :=
  imap (fun j sym => resultOf (world j) sym) SYMBOLS.

(** Every entry of the cache [st] was in [st0] already, or is a summary
    built for a symbol of the universe, under its key, for 30 days. *)
Definition persisted (world : nat -> SymbolIO) (SYMBOLS : list string)
    (st0 st : Store) : Prop :=
  forall key v ex, st !! key = Some (v, ex) ->
    st0 !! key = Some (v, ex) \/
    exists j sym, SYMBOLS !! j = Some sym /\ key = "earnings:" +:+ sym /\
                  ex = 2592000 /\ built (world j) sym v.

(** The script from its first line: [main().catch(console.error)], with
    the call of [getAllSymbols] that opens [main]. *)
Definition script (symbolList : fetched SymbolListBody) (world : nat -> SymbolIO)
    (st : Store) : ProcessEnd :=
  match getAllSymbols symbolList with
  | None => Exit 1 st
  | Some SYMBOLS =>
      match main world SYMBOLS st with
      | Return run => Completed run
      | Throw e => Logged e
      end
  end.

End ProcessSymbol.

(* ===================================================================== *)
(** ** The vocabulary of the description *)
(* ===================================================================== *)

(** The text of the calendar day [i] days before the day of [v]. *)
Definition dateBack (v i : Z) : string := JSDate.isoDate (v - i * JSDate.msPerDay).

(** Some price point of the series carries the date [s]. *)
Definition has_date (priceData : list PricePoint.t) (s : string) : Prop :=
  exists p, In p priceData /\ PricePoint.date p = s.

(** The first price point of the series, in its order, that carries the
    date [s]. *)
Definition firstOn (priceData : list PricePoint.t) (s : string) : option PricePoint.t :=
  find (fun d => String.eqb (PricePoint.date d) s) priceData.

(** A time value a [Date] can hold. *)
Definition validTime (v : Z) : Prop := Z.abs v <= JSDate.maxTime.

(** What a search over the offsets [lo <= k < hi] has to return: the close
    of the first point on the closest day back that has one, or nothing
    when no day has one. *)
Inductive located (priceData : list PricePoint.t) (v : Z) (lo hi : Z)
    : option Number.t -> Prop :=
| located_hit k p :
    lo <= k < hi ->
    (forall j, lo <= j < k -> ~ has_date priceData (dateBack v j)) ->
    firstOn priceData (dateBack v k) = Some p ->
    located priceData v lo hi (Some (Number.parseFloat (PricePoint.close p)))
| located_miss :
    (forall j, lo <= j < hi -> ~ has_date priceData (dateBack v j)) ->
    located priceData v lo hi None.

(** The move as the description words it: |after - before| / before * 100. *)
Definition percentMove_spec (beforePrice afterPrice : Number.t) : Number.t :=
  Number.mul (Number.div (Number.abs (Number.sub afterPrice beforePrice)) beforePrice)
             (Number.of_Z 100).

(** [n] hundredths is the two-decimal number nearest to [num / den], the
    one away from zero when two are equally near. *)
Definition nearest_hundredth (num den n : Z) : Prop :=
  2 * Z.abs (n * den - 100 * num) <= den /\
  (2 * Z.abs (n * den - 100 * num) = den -> 100 * num < n * den).

(** Rounding half away from zero: [floor (100 * num / den + 1/2)]. *)
Definition half_away_hundredths (num den : Z) : Z := (200 * num + den) / (2 * den).

(** A number rounded to two decimals, half away from zero, as a double.
    The sign is kept apart from the magnitude, so the rounding is away
    from zero on both sides.  Doubles of magnitude [1e21] and more are
    whole numbers, and are left as they are with the infinities and
    [NaN]. *)
Definition round_half_away_2dp (x : Number.t) : Number.t :=
  match x with
  | S754_finite s m e =>
      let '(num, den) := Number.magnitude m e in
      if 10 ^ 21 * den <=? num then x
      else Number.parse_hundredths s (half_away_hundredths num den)
  | S754_zero _ => S754_zero false
  | _ => x
  end.

(** The mean of doubles as the machine computes it: the sum from left to
    right, starting from [0], every addition rounded to a double, then
    the division by the count, rounded. *)
Definition double_mean (l : list Number.t) : Number.t :=
  SFdiv 53 1024 (fold_left (SFadd 53 1024) l (S754_zero false))
                (binary_normalize 53 1024 (Z.of_nat (length l)) 0 false).

(** [M] is the integer nearest to [A / B], the even one of two equally
    near. *)
Definition nearest_even (A B M : Z) : Prop :=
  2 * Z.abs (A - M * B) <= B /\ (2 * Z.abs (A - M * B) = B -> Z.even M = true).

(** [a / b] over [2 ^ E], as a fraction of integers. *)
Definition scaled (a b E : Z) : Z * Z :=
  (a * 2 ^ Z.max (- E) 0, b * 2 ^ Z.max E 0).

(** A 53-bit significand with its exponent as a double; a significand
    that rounding carried to [2 ^ 53] moves to the next exponent. *)
Definition normalized (s : bool) (M E : Z) : Number.t :=
  if M =? 2 ^ 53 then S754_finite s (Z.to_pos (2 ^ 52)) (E + 1)
  else S754_finite s (Z.to_pos M) E.

(** [y] is the double nearest to [a / b], with sign [s]: at the exponent
    [E] that brings [a / b] between [2 ^ 52] and [2 ^ 53], its
    significand is the integer nearest to [a / b / 2 ^ E], the even one
    of two equally near.  (For [a / b] in the range of the normal
    doubles.) *)
Definition nearest_double (s : bool) (a b : Z) (y : Number.t) : Prop :=
  exists M E,
    2 ^ 52 * snd (scaled a b E) <= fst (scaled a b E) < 2 ^ 53 * snd (scaled a b E) /\
    nearest_even (fst (scaled a b E)) (snd (scaled a b E)) M /\
    y = normalized s M E.

(** [y] is the double [x] rounded to two decimals, half away from zero:
    the double nearest to [n / 100], for [n] the hundredths nearest to
    the exact magnitude of [x], with the sign of [x].  A zero of either
    sign gives [0]; doubles of magnitude [1e21] and more, the infinities
    and [NaN] are left as they are. *)
Definition rounded_to_2dp (x y : Number.t) : Prop :=
  match x with
  | S754_finite s m e =>
      let num := Z.pos m * 2 ^ Z.max e 0 in
      let den := 2 ^ Z.max (- e) 0 in
      if 10 ^ 21 * den <=? num then y = x
      else if half_away_hundredths num den =? 0 then y = S754_zero s
      else nearest_double s (half_away_hundredths num den) 100 y
  | S754_zero _ => y = S754_zero false
  | _ => y = x
  end.

(** The exact value of a finite double, as a fraction. *)
Definition exact (x : Number.t) : option (Z * Z) :=
  match x with
  | S754_zero _ => Some (0, 1)
  | S754_finite s m e =>
      Some ((if s then -1 else 1) * (Z.pos m * 2 ^ Z.max e 0), 2 ^ Z.max (- e) 0)
  | _ => None
  end.

(** The exact sum of finite doubles, as a fraction. *)
Fixpoint exact_sum (l : list Number.t) : option (Z * Z) :=
  match l with
  | [] => Some (0, 1)
  | x :: rest =>
      match exact x, exact_sum rest with
      | Some (n1, d1), Some (n2, d2) => Some (n1 * d2 + n2 * d1, d1 * d2)
      | _, _ => None
      end
  end.

(** The mean of the doubles of [l] in exact arithmetic, their exact sum
    over their number, in hundredths, rounded half away from zero (for a
    sum that is not negative). *)
Definition exact_mean_hundredths (l : list Number.t) : option Z :=
  match exact_sum l with
  | Some (N, D) => Some (half_away_hundredths N (D * Z.of_nat (length l)))
  | None => None
  end.

(** [y] is the exact mean of [l] rounded to two decimals, as a double. *)
Definition rounded_exact_mean (l : list Number.t) (y : Number.t) : Prop :=
  match exact_mean_hundredths l with
  | Some n => if n =? 0 then y = S754_zero false else nearest_double false n 100 y
  | None => False
  end.

(** The place of [X / D] between two consecutive integers: on the lower
    one, below the middle, in the middle or above it. *)
Definition loc_of (X D : Z) : location :=
  if X mod D =? 0 then loc_Exact else loc_Inexact (Z.compare (2 * (X mod D)) D).

(** The shift record holds [X / D] cut to an integer, with its place. *)
Definition holds (mrs : shr_record) (X D : Z) : Prop :=
  shr_m mrs = X / D /\ loc_of_shr_record mrs = loc_of X D.

(** Number of groups of at most [n] that [len] symbols fall into. *)
Definition groupCount (n len : nat) : nat := ((len + (n - 1)) / n)%nat.

(** Contiguous groups of at most [n] elements, in order. *)
Definition groups {A} (n : nat) (l : list A) : list (list A) :=
  map (fun k => take n (drop (k * n) l)) (seq 0 (groupCount n (length l))).

Definition groupAt (SYMBOLS : list string) (k : nat) : list string :=
  take 900 (drop (k * 900) SYMBOLS).

(** [sep] between consecutive elements, and nowhere else. *)
Fixpoint intersperse {A} (sep : A) (l : list A) : list A :=
  match l with
  | [] => []
  | [x] => [x]
  | x :: rest => x :: sep :: intersperse sep rest
  end.

(** The groups of 900 in order, a pause of 60000 ms between two of them. *)
Definition schedule (SYMBOLS : list string) : list event :=
  intersperse (Sleep 60000) (map Group (groups 900 SYMBOLS)).

Definition isSleep (e : event) : bool :=
  match e with Sleep _ => true | Group _ => false end.

(** The sign bit of a number: set on the negative numbers and on [-0],
    clear on [NaN]. *)
Definition sign_bit (x : Number.t) : bool :=
  match x with
  | S754_zero s | S754_infinity s | S754_finite s _ _ => s
  | S754_nan => false
  end.

(** The point [p] is dated on one of the five days the search for [v]
    looks at. *)
Definition inWindow (v : Z) (p : PricePoint.t) : bool :=
  existsb (fun i => String.eqb (PricePoint.date p) (dateBack v i)) [0; 1; 2; 3; 4].

(** The same responses at another run: the clock reads [now] for
    [today] and gives the text [s] for [lastUpdated]. *)
Definition rerun (io : SymbolIO) (now : Z) (s : string) : SymbolIO :=
  {| today := now; calendar := calendar io; priceHistory := priceHistory io;
     redisReply := redisReply io; stamp := s |}.

Definition with_lastUpdated (s : string) (r : Summary) : Summary :=
  {| symbol := symbol r; nextDate := nextDate r; avgMove := avgMove r;
     lastUpdated := s |}.

(** The calendar lists its events by dates that never go back. *)
Definition inDateOrder (Date_parse : string -> JSDate.t) (evs : list Earning.t) : Prop :=
  StronglySorted (fun a b => JSDate.gt (Date_parse (Earning.date a))
                                       (Date_parse (Earning.date b)) = false) evs.

(* ===================================================================== *)
(** ** Worked inputs *)
(* ===================================================================== *)

Module Example.

Definition point (d : string) (c : Z) : PricePoint.t :=
  {| PricePoint.date := d; PricePoint.close := Number.of_Z c |}.

Definition earning (d : string) : Earning.t := {| Earning.date := d |}.

(** 2024-01-06, a Saturday, and 2024-06-01, both at midnight UTC. *)
Definition saturday : Z := 1704499200000.
Definition june1 : Z := 1717200000000.

Definition series : list PricePoint.t :=
  [point "2024-01-02" 100; point "2024-01-03" 110].

(** Two points on 2024-01-03, with different closes. *)
Definition duplicated : list PricePoint.t :=
  [point "2024-01-02" 100; point "2024-01-03" 110; point "2024-01-03" 120].

Definition filler : list PricePoint.t :=
  [point "2022-01-03" 1; point "2022-01-04" 1; point "2022-01-05" 1;
   point "2022-01-06" 1; point "2022-01-07" 1; point "2022-01-10" 1;
   point "2022-01-11" 1; point "2022-01-12" 1].

(** 100 the day before 2024-02-01 and 110 the day after. *)
Definition prices : list PricePoint.t :=
  point "2024-01-31" 100 :: point "2024-02-02" 110 :: filler.

(** The same, with a close of 0 the day after. *)
Definition zeroAfter : list PricePoint.t :=
  point "2024-01-31" 100 :: point "2024-02-02" 0 :: filler.

(** Moves of 5, 10 and 15 percent around three past announcements. *)
Definition history : list PricePoint.t :=
  point "2023-02-28" 100 :: point "2023-03-02" 105 ::
  point "2023-05-31" 100 :: point "2023-06-02" 110 ::
  point "2023-08-31" 100 :: point "2023-09-02" 115 :: filler.

Definition io (evs : list Earning.t) (priceData : list PricePoint.t) : SymbolIO :=
  {| today := june1;
     calendar := Body {| earnings := Some evs |};
     priceHistory := Body (PriceArray priceData);
     redisReply := SetOk;
     stamp := "2024-06-01T00:00:00.000Z" |}.

(** Three past announcements and the next one. *)
Definition io_mean : SymbolIO :=
  io [earning "2023-03-01"; earning "2023-06-01"; earning "2023-09-01";
      earning "2024-12-01"] history.

(** The later of two future announcements comes first. *)
Definition io_unordered : SymbolIO :=
  io [earning "2023-06-01"; earning "2025-01-01"; earning "2024-12-01"] history.

Definition io_no_events : SymbolIO := io [] history.

(** Nine price points. *)
Definition io_thin : SymbolIO :=
  io [earning "2023-06-01"; earning "2024-12-01"] (take 9 history).

Definition io_rejected : SymbolIO :=
  {| today := june1; calendar := Rejected; priceHistory := Rejected;
     redisReply := SetOk; stamp := "" |}.

Definition io_write_fails : SymbolIO :=
  {| today := june1;
     calendar := calendar io_mean;
     priceHistory := priceHistory io_mean;
     redisReply := SetFailed false;
     stamp := stamp io_mean |}.

(** What [processSymbol] stores for [io_mean] and the symbol "AAPL". *)
Definition summary : Summary :=
  {| symbol := "AAPL"; nextDate := "2024-12-01"; avgMove := Number.of_Z 10;
     lastUpdated := "2024-06-01T00:00:00.000Z" |}.

(** The first symbol's calendar fetch fails, the others go through. *)
Definition world (j : nat) : SymbolIO :=
  match j with
  | O => io_rejected
  | _ => io_mean
  end.

Definition universe : list string := repeat "A" 1801.

(** 2024-01-06 at noon UTC. *)
Definition saturdayNoon : Z := 1704542400000.

(** 2024-01-04 at midnight UTC: the series has a point the day before,
    none on the day and none the day after. *)
Definition jan4 : Z := 1704326400000.

(** The second event carries a text that is no date. *)
Definition io_poison : SymbolIO :=
  io [earning "2023-06-01"; earning "soon"; earning "2024-12-01"] history.

(** Past announcements only. *)
Definition io_past : SymbolIO :=
  io [earning "2023-03-01"; earning "2023-06-01"] history.

Definition trio : list string := ["MSFT"; "AAPL"; "GOOG"].

(** A symbol list read as two records whatever the text. *)
Definition twoStocks (data : string) : option SymbolListBody :=
  Some (StockList [{| Code := "MSFT" |}; {| Code := "AAPL" |}]).

(** 2024-02-03 at midnight UTC. *)
Definition feb3 : Z := 1706918400000.

(** Moves of 0.01 and 0.02 percent: 10000 to 10001 and 10000 to 10002. *)
Definition cents : list PricePoint.t :=
  point "2023-02-28" 10000 :: point "2023-03-02" 10001 ::
  point "2023-05-31" 10000 :: point "2023-06-02" 10002 :: filler.

Definition io_cents : SymbolIO :=
  io [earning "2023-03-01"; earning "2023-06-01"; earning "2024-12-01"] cents.

(** 2024-06-02 and 2024-12-01 at midnight UTC. *)
Definition june2 : Z := 1717286400000.
Definition december1 : Z := 1733011200000.

End Example.

(* ===================================================================== *)
(** ** findPriceOnDate: the search window *)
(* ===================================================================== *)

(** Arithmetic on time values within the range of [Date]. *)
Ltac time_arith := unfold validTime, JSDate.msPerDay, JSDate.maxTime in *; lia.

Lemma TimeClip_valid v : validTime v -> JSDate.TimeClip v = Some v.
Proof.
  unfold validTime, JSDate.TimeClip. intros H.
  destruct (Z.leb_spec (Z.abs v) JSDate.maxTime); [reflexivity | lia].
Qed.

Lemma firstOn_None priceData s : firstOn priceData s = None <-> ~ has_date priceData s.
Proof.
  unfold firstOn, has_date. split.
  - intros Hf [p [Hin Hd]].
    pose proof (find_none _ _ Hf p Hin) as Hp. cbn in Hp.
    apply String.eqb_neq in Hp. congruence.
  - intros Hno. destruct (find _ priceData) as [p|] eqn:Hf; [|reflexivity].
    apply find_some in Hf as [Hin Heq]. apply String.eqb_eq in Heq.
    exfalso. apply Hno. eauto.
Qed.

Lemma firstOn_Some_has priceData s p : firstOn priceData s = Some p -> has_date priceData s.
Proof.
  unfold firstOn. intros Hf. apply find_some in Hf as [Hin Heq].
  apply String.eqb_eq in Heq. exists p. auto.
Qed.

Lemma firstOn_app priceData s pre p post :
  priceData = (pre ++ p :: post)%list ->
  PricePoint.date p = s ->
  (forall q, In q pre -> PricePoint.date q <> s) ->
  firstOn priceData s = Some p.
Proof.
  intros -> Hp Hpre. unfold firstOn. induction pre as [|q pre IH]; cbn.
  - rewrite Hp, String.eqb_refl. reflexivity.
  - destruct (String.eqb_spec (PricePoint.date q) s) as [Heq|_].
    + exfalso. apply (Hpre q); [left; reflexivity | exact Heq].
    + apply IH. intros q' Hq'. apply Hpre. right. exact Hq'.
Qed.

(** One turn of the loop on a valid date. *)
Lemma findPriceOnDate_loop_step n i priceData v :
  validTime (v - i * JSDate.msPerDay) ->
  findPriceOnDate_loop (S n) i priceData (Some v) =
    match firstOn priceData (dateBack v i) with
    | Some p => Return (Some (Number.parseFloat (PricePoint.close p)))
    | None => findPriceOnDate_loop n (i + 1) priceData (Some v)
    end.
Proof.
  intros Hv. cbn [findPriceOnDate_loop JSDate.shifted].
  replace (v + - (i * JSDate.msPerDay)) with (v - i * JSDate.msPerDay) by lia.
  rewrite TimeClip_valid by exact Hv. reflexivity.
Qed.

Lemma findPriceOnDate_loop_located n : forall i priceData v,
  (forall k, i <= k < i + Z.of_nat n -> validTime (v - k * JSDate.msPerDay)) ->
  exists r, findPriceOnDate_loop n i priceData (Some v) = Return r
            /\ located priceData v i (i + Z.of_nat n) r.
Proof.
  induction n as [|n IH]; intros i priceData v Hv.
  - exists None. split; [reflexivity|]. apply located_miss. intros j Hj. lia.
  - rewrite findPriceOnDate_loop_step by (apply Hv; lia).
    destruct (firstOn priceData (dateBack v i)) as [p|] eqn:Hf.
    + eexists. split; [reflexivity|].
      apply located_hit with (k := i); [lia | intros j Hj; lia | exact Hf].
    + destruct (IH (i + 1) priceData v) as [r [Hr Hloc]].
      { intros k Hk. apply Hv. lia. }
      exists r. split; [exact Hr|].
      apply firstOn_None in Hf.
      inversion Hloc as [k p Hk Hbefore Hp Heq | Hnone Heq]; subst.
      * apply located_hit with (k := k); [lia | | exact Hp].
        intros j Hj. destruct (Z.eq_dec j i) as [->|Hne]; [exact Hf | apply Hbefore; lia].
      * apply located_miss. intros j Hj.
        destruct (Z.eq_dec j i) as [->|Hne]; [exact Hf | apply Hnone; lia].
Qed.

Lemma located_unique priceData v lo hi r1 r2 :
  located priceData v lo hi r1 -> located priceData v lo hi r2 -> r1 = r2.
Proof.
  intros H1 H2.
  inversion H1 as [k1 p1 Hk1 Hb1 Hp1 E1 | Hn1 E1];
  inversion H2 as [k2 p2 Hk2 Hb2 Hp2 E2 | Hn2 E2]; subst; try reflexivity.
  - destruct (Z.lt_total k1 k2) as [Hlt | [-> | Hgt]].
    + exfalso. apply (Hb2 k1); [lia | eapply firstOn_Some_has; eauto].
    + congruence.
    + exfalso. apply (Hb1 k2); [lia | eapply firstOn_Some_has; eauto].
  - exfalso. apply (Hn2 k1 Hk1). eapply firstOn_Some_has; eauto.
  - exfalso. apply (Hn1 k2 Hk2). eapply firstOn_Some_has; eauto.
Qed.

Lemma findPriceOnDate_located priceData v :
  validTime v -> validTime (v - 4 * JSDate.msPerDay) ->
  exists r, findPriceOnDate priceData (Some v) = Return r /\ located priceData v 0 5 r.
Proof.
  intros H0 H4. unfold findPriceOnDate.
  apply (findPriceOnDate_loop_located 5 0 priceData v).
  intros k Hk. time_arith.
Qed.

(** On an Invalid Date the search throws at its first turn. *)
Lemma findPriceOnDate_invalid priceData :
  findPriceOnDate priceData None = Throw RangeError.
Proof. reflexivity. Qed.

(** C3.  For every price series and every target date whose five-day
    look-back stays within the range of [Date]: [findPriceOnDate] returns
    a price exactly when one of the five days target, target - 1, ...,
    target - 4 has a point in the series; the price is then the close of
    the point found on the closest such day back (the first offset that
    matches wins); and when no such day has a point it returns [null]. *)
Theorem findPriceOnDate_window priceData v :
  validTime v -> validTime (v - 4 * JSDate.msPerDay) ->
  ((exists x, findPriceOnDate priceData (Some v) = Return (Some x))
   <-> (exists i, 0 <= i <= 4 /\ has_date priceData (dateBack v i))) /\
  (forall i p, 0 <= i <= 4 ->
     (forall j, 0 <= j < i -> ~ has_date priceData (dateBack v j)) ->
     firstOn priceData (dateBack v i) = Some p ->
     findPriceOnDate priceData (Some v)
     = Return (Some (Number.parseFloat (PricePoint.close p)))) /\
  ((forall i, 0 <= i <= 4 -> ~ has_date priceData (dateBack v i)) ->
   findPriceOnDate priceData (Some v) = Return None).
Proof.
  intros H0 H4.
  destruct (findPriceOnDate_located priceData v H0 H4) as [r [Hr Hloc]].
  rewrite Hr. split; [|split].
  - split.
    + intros [x [= ->]].
      inversion Hloc as [k p Hk _ Hp Heq|]; subst.
      exists k. split; [lia | eapply firstOn_Some_has; eauto].
    + intros [i [Hi Hd]].
      inversion Hloc as [k p Hk _ Hp Heq | Hnone Heq]; subst; [eauto|].
      exfalso. apply (Hnone i); [lia | exact Hd].
  - intros i p Hi Hbefore Hp. f_equal.
    apply (located_unique priceData v 0 5); [exact Hloc|].
    apply located_hit with (k := i); [lia | exact Hbefore | exact Hp].
  - intros Hnone. f_equal.
    apply (located_unique priceData v 0 5); [exact Hloc|].
    apply located_miss. intros j Hj. apply Hnone. lia.
Qed.

(** C10.  A series may carry several points on one date.  For every
    target date whose look-back stays within the range of [Date],
    [findPriceOnDate] does not throw, whatever the series; and when the
    series reads [pre ++ p :: post], [p] being the first point in series
    order on the closest day back that has one, the result is the close
    of [p] read as a number, whatever [post] holds: further points on the
    same date are neither averaged nor preferred. *)
Theorem findPriceOnDate_first_of_duplicates v :
  validTime v -> validTime (v - 4 * JSDate.msPerDay) ->
  (forall priceData, exists r, findPriceOnDate priceData (Some v) = Return r) /\
  (forall pre p post i, 0 <= i <= 4 ->
     PricePoint.date p = dateBack v i ->
     (forall q, In q pre -> PricePoint.date q <> dateBack v i) ->
     (forall j, 0 <= j < i -> ~ has_date (pre ++ p :: post)%list (dateBack v j)) ->
     findPriceOnDate (pre ++ p :: post)%list (Some v)
     = Return (Some (Number.parseFloat (PricePoint.close p)))).
Proof.
  intros H0 H4. split.
  - intros priceData.
    destruct (findPriceOnDate_located priceData v H0 H4) as [r [Hr _]]. eauto.
  - intros pre p post i Hi Hp Hpre Hbefore.
    destruct (findPriceOnDate_located (pre ++ p :: post)%list v H0 H4) as [r [Hr Hloc]].
    rewrite Hr. f_equal.
    apply (located_unique (pre ++ p :: post)%list v 0 5); [exact Hloc|].
    apply located_hit with (k := i); [lia | exact Hbefore |].
    apply firstOn_app with (pre := pre) (post := post); auto.
Qed.

(* ===================================================================== *)
(** ** The arithmetic of a move and of its rounding *)
(* ===================================================================== *)

(** Rounding does not look at the sign, so |x / y| = |x| / y for y > 0. *)
Lemma abs_binary_round_aux s m e l :
  SFabs (binary_round_aux Number.prec Number.emax s m e l)
  = binary_round_aux Number.prec Number.emax false m e l.
Proof.
  unfold binary_round_aux.
  destruct (shr_fexp Number.prec Number.emax m e l) as [mrs' e'].
  destruct (shr_fexp _ _ _ e' loc_Exact) as [mrs'' e''].
  destruct (shr_m mrs'') as [|q|q]; [reflexivity | | reflexivity].
  destruct (e'' <=? Number.emax - Number.prec)%Z; reflexivity.
Qed.

Lemma gt_zero_positive b :
  Number.gt b (Number.of_Z 0) = true ->
  b = S754_infinity false \/ exists m e, b = S754_finite false m e.
Proof.
  destruct b as [s|[|]| |[|] m e]; cbn; try discriminate; eauto.
Qed.

Lemma gt_zero_truthy b : Number.gt b (Number.of_Z 0) = true -> Number.truthy b = true.
Proof. intros H. apply gt_zero_positive in H as [->|[m [e ->]]]; reflexivity. Qed.

Lemma abs_div_positive x b :
  Number.gt b (Number.of_Z 0) = true ->
  Number.abs (Number.div x b) = Number.div (Number.abs x) b.
Proof.
  intros H. apply gt_zero_positive in H as [->|[m [e ->]]].
  - destruct x as [s|s| |s mx ex]; reflexivity.
  - destruct x as [s|s| |s mx ex]; try reflexivity.
    unfold Number.div, Number.abs, SFdiv. cbn [SFabs].
    destruct (SFdiv_core_binary _ _ _ _ _ _) as [[mz ez] lz].
    rewrite abs_binary_round_aux. rewrite xorb_false_r. reflexivity.
Qed.

Lemma percentMove_as_specified b a :
  Number.gt b (Number.of_Z 0) = true -> percentMove b a = percentMove_spec b a.
Proof. intros H. unfold percentMove, percentMove_spec. rewrite abs_div_positive by exact H. reflexivity. Qed.

Lemma magnitude_positive m e :
  0 < fst (Number.magnitude m e) /\ 0 < snd (Number.magnitude m e).
Proof.
  unfold Number.magnitude. cbn [fst snd]. split.
  - apply Z.mul_pos_pos; [lia | apply Z.pow_pos_nonneg; lia].
  - apply Z.pow_pos_nonneg; lia.
Qed.

Lemma half_away_is_nearest num den :
  0 < den -> 0 <= num -> nearest_hundredth num den (half_away_hundredths num den).
Proof.
  intros Hden Hnum. unfold nearest_hundredth, half_away_hundredths.
  pose proof (Z.div_mod (200 * num + den) (2 * den) ltac:(lia)) as Hdm.
  pose proof (Z.mod_pos_bound (200 * num + den) (2 * den) ltac:(lia)) as Hb.
  set (n := (200 * num + den) / (2 * den)) in *.
  set (r := (200 * num + den) mod (2 * den)) in *.
  assert (E : 2 * (n * den - 100 * num) = den - r) by lia.
  split; [lia | intros Ht; lia].
Qed.

Lemma nearest_hundredth_unique num den n1 n2 :
  0 < den -> nearest_hundredth num den n1 -> nearest_hundredth num den n2 -> n1 = n2.
Proof.
  unfold nearest_hundredth. intros Hden [H1 T1] [H2 T2].
  destruct (Z.lt_total n1 n2) as [Hlt | [-> | Hgt]]; [exfalso | reflexivity | exfalso].
  - assert (n1 * den + den <= n2 * den) by nia. lia.
  - assert (n2 * den + den <= n1 * den) by nia. lia.
Qed.

Lemma toFixed_n_is_nearest num den :
  0 < den -> 0 <= num -> nearest_hundredth num den (Number.toFixed_n num den).
Proof.
  intros Hden Hnum. unfold nearest_hundredth, Number.toFixed_n.
  pose proof (Z.div_mod (100 * num) den ltac:(lia)) as Hdm.
  pose proof (Z.mod_pos_bound (100 * num) den ltac:(lia)) as Hb.
  set (lo := (100 * num) / den) in *.
  set (r := (100 * num) mod den) in *.
  cbv zeta.
  destruct (Z.leb_spec ((lo + 1) * den - 100 * num) (100 * num - lo * den)); split; lia.
Qed.

Lemma toFixed_n_half_away num den :
  0 < den -> 0 <= num -> Number.toFixed_n num den = half_away_hundredths num den.
Proof.
  intros Hden Hnum. apply (nearest_hundredth_unique num den); auto using toFixed_n_is_nearest, half_away_is_nearest.
Qed.

(** A double of magnitude [1e21] or more is a whole number, and a whole
    number is its own rounding to two decimals. *)
Lemma large_is_whole m e :
  Z.pos m < 2 ^ 53 ->
  10 ^ 21 * snd (Number.magnitude m e) <= fst (Number.magnitude m e) ->
  snd (Number.magnitude m e) = 1.
Proof.
  unfold Number.magnitude. cbn [fst snd]. intros Hm Hbig.
  destruct (Z.max_spec (- e) 0) as [[_ ->] | [Hneg ->]]; [reflexivity|].
  destruct (Z.eq_dec e 0) as [-> | Hne]; [reflexivity|].
  exfalso. rewrite (Z.max_r e 0), (Z.max_l (- e) 0) in Hbig by lia.
  rewrite Z.pow_0_r, Z.mul_1_r in Hbig.
  assert (H2 : 2 ^ 1 <= 2 ^ (- e)) by (apply Z.pow_le_mono_r; lia).
  change (2 ^ 1) with 2 in H2.
  change (2 ^ 53) with 9007199254740992 in Hm.
  change (10 ^ 21) with 1000000000000000000000 in Hbig.
  lia.
Qed.

Lemma whole_rounds_to_itself num : half_away_hundredths num 1 = 100 * num.
Proof.
  unfold half_away_hundredths.
  replace (200 * num + 1) with (1 + (100 * num) * (2 * 1)) by lia.
  rewrite Z.div_add by lia. reflexivity.
Qed.

Lemma roundFixed2_half_away x : Number.roundFixed2 x = round_half_away_2dp x.
Proof.
  destruct x as [s|s| |s m e]; try reflexivity.
  unfold Number.roundFixed2, round_half_away_2dp.
  pose proof (magnitude_positive m e) as [Hn Hd].
  destruct (Number.magnitude m e) as [num den]. cbn [fst snd] in *.
  rewrite toFixed_n_half_away by lia. reflexivity.
Qed.

(** The number of binary digits of a positive integer. *)
Lemma digits2_pos_bounds p :
  2 ^ (Z.pos (digits2_pos p) - 1) <= Z.pos p < 2 ^ Z.pos (digits2_pos p).
Proof.
  induction p as [p IH|p IH|]; cbn [digits2_pos].
  - rewrite Pos2Z.inj_succ. replace (Z.succ (Z.pos (digits2_pos p)) - 1)
      with (Z.succ (Z.pos (digits2_pos p) - 1)) by lia.
    rewrite !Z.pow_succ_r by lia. lia.
  - rewrite Pos2Z.inj_succ. replace (Z.succ (Z.pos (digits2_pos p)) - 1)
      with (Z.succ (Z.pos (digits2_pos p) - 1)) by lia.
    rewrite !Z.pow_succ_r by lia. lia.
  - cbn. lia.
Qed.

Lemma Zdigits2_bounds m : 0 < m -> 2 ^ (Zdigits2 m - 1) <= m < 2 ^ Zdigits2 m.
Proof. destruct m as [|p|p]; try lia. intros _. apply digits2_pos_bounds. Qed.

Lemma Zdigits2_unique m k : 0 < m -> 2 ^ (k - 1) <= m < 2 ^ k -> Zdigits2 m = k.
Proof.
  intros Hm [Hlo Hhi]. pose proof (Zdigits2_bounds m Hm) as [Dlo Dhi].
  assert (Hd : 0 < Zdigits2 m) by (destruct m; cbn; lia).
  assert (Hk : 0 < k).
  { destruct (Z.lt_ge_cases 0 k); [assumption|]. exfalso.
    assert (2 ^ k <= 2 ^ 0) by (apply Z.pow_le_mono_r; lia). cbn in *. lia. }
  destruct (Z.lt_total (Zdigits2 m) k) as [Hlt | [Heq | Hgt]]; [exfalso | exact Heq | exfalso].
  - assert (2 ^ Zdigits2 m <= 2 ^ (k - 1)) by (apply Z.pow_le_mono_r; lia). lia.
  - assert (2 ^ k <= 2 ^ (Zdigits2 m - 1)) by (apply Z.pow_le_mono_r; lia). lia.
Qed.

(** The shifts of the rounding: a record that holds [X / D] holds
    [X / (2 * D)] after one shift to the right, and so on. *)
Lemma holds_start X D :
  0 < D -> holds (shr_record_of_loc (X / D) (loc_of X D)) X D.
Proof.
  intros HD. unfold holds. destruct (loc_of X D) as [|[| |]]; split; reflexivity.
Qed.

Lemma holds_shr_1 mrs X D :
  0 <= X -> 0 < D -> holds mrs X D -> holds (shr_1 mrs) X (D * 2).
Proof.
  intros HX HD [Hm Hl].
  pose proof (Z.div_mod X D ltac:(lia)) as Hdm.
  pose proof (Z.mod_pos_bound X D HD) as Hrho.
  pose proof (Z.div_pos X D HX HD) as Hq.
  assert (Hdiv : X / (D * 2) = Z.div2 (X / D)) by (rewrite <- Z.div_div by lia; symmetry; apply Z.div2_div).
  assert (Hmod : X mod (D * 2) = X mod D + D * (if Z.odd (X / D) then 1 else 0))
    by (rewrite Z.rem_mul_r by lia; rewrite Zmod_odd; reflexivity).
  unfold holds. rewrite Hdiv. unfold loc_of in *. rewrite Hmod.
  destruct mrs as [m r s]. cbn [shr_m] in Hm. subst m.
  set (rho := X mod D) in *.
  assert (Hrs : (r = false /\ s = false /\ rho = 0) \/
                (r = false /\ s = true /\ 0 < rho /\ 2 * rho < D) \/
                (r = true /\ s = false /\ 2 * rho = D) \/
                (r = true /\ s = true /\ D < 2 * rho)).
  { cbn [loc_of_shr_record] in Hl.
    destruct (Z.eqb_spec rho 0) as [Hz|Hnz].
    - destruct r, s; try discriminate Hl. auto.
    - destruct (Z.compare_spec (2 * rho) D) as [Hc|Hc|Hc];
        destruct r, s; try discriminate Hl; intuition lia. }
  clear Hl.
  destruct (X / D) as [|[p|p|]|p] eqn:Hxd; try lia; cbn [shr_1 Z.div2 Z.odd shr_m Pos.div2].
  all: destruct Hrs as [[-> [-> Hr]] | [[-> [-> Hr]] | [[-> [-> Hr]] | [-> [-> Hr]]]]];
    cbn [orb loc_of_shr_record]; split; try reflexivity.
  all: repeat match goal with
       | |- context [Z.eqb ?a ?b] => destruct (Z.eqb_spec a b); try lia
       | |- context [Z.compare ?a ?b] => destruct (Z.compare_spec a b); try lia
       end; try reflexivity.
Qed.

Lemma holds_iter_pos k : forall mrs X D,
  0 <= X -> 0 < D -> holds mrs X D ->
  holds (SpecFloat.iter_pos shr_1 k mrs) X (D * 2 ^ Z.pos k).
Proof.
  induction k as [k IH|k IH|]; intros mrs X D HX HD H; cbn [SpecFloat.iter_pos].
  - assert (0 < 2 ^ Z.pos k) by (apply Z.pow_pos_nonneg; lia).
    replace (D * 2 ^ Z.pos k~1) with (D * 2 * 2 ^ Z.pos k * 2 ^ Z.pos k).
    + apply IH; [assumption|nia|].
      apply IH; [assumption|lia|]. apply holds_shr_1; assumption.
    + replace (Z.pos k~1) with (Z.pos k + Z.pos k + 1) by lia.
      rewrite !Z.pow_add_r by lia. change (2 ^ 1) with 2. ring.
  - assert (0 < 2 ^ Z.pos k) by (apply Z.pow_pos_nonneg; lia).
    replace (D * 2 ^ Z.pos k~0) with (D * 2 ^ Z.pos k * 2 ^ Z.pos k).
    + apply IH; [assumption|nia|]. apply IH; assumption.
    + replace (Z.pos k~0) with (Z.pos k + Z.pos k) by lia.
      rewrite !Z.pow_add_r by lia. ring.
  - change (2 ^ 1) with 2. apply holds_shr_1; assumption.
Qed.

Lemma holds_shr mrs e n X D :
  0 <= X -> 0 < D -> 0 <= n -> holds mrs X D ->
  holds (fst (shr mrs e n)) X (D * 2 ^ n) /\ snd (shr mrs e n) = e + n.
Proof.
  intros HX HD Hn H. destruct n as [|k|k]; try lia; cbn [shr fst snd].
  - rewrite Z.mul_1_r, Z.add_0_r. auto.
  - split; [apply holds_iter_pos; assumption | reflexivity].
Qed.

(** The rounding of a cut quotient with its place is the nearest integer,
    the even one of two. *)
Lemma round_nearest_even_spec X D :
  0 <= X -> 0 < D ->
  nearest_even X D (round_nearest_even (X / D) (loc_of X D)) /\
  X / D <= round_nearest_even (X / D) (loc_of X D) <= X / D + 1.
Proof.
  intros HX HD.
  pose proof (Z.div_mod X D ltac:(lia)) as Hdm.
  pose proof (Z.mod_pos_bound X D HD) as Hrho.
  unfold loc_of, nearest_even.
  destruct (Z.eqb_spec (X mod D) 0) as [Hz|Hnz]; cbn [round_nearest_even].
  - repeat split; try lia.
  - destruct (Z.compare_spec (2 * (X mod D)) D) as [Hc|Hc|Hc].
    + destruct (Z.even (X / D)) eqn:Hev.
      * repeat split; try lia. intros _. exact Hev.
      * repeat split; try lia. intros _. rewrite Z.even_add, Hev. reflexivity.
    + repeat split; try lia.
    + repeat split; try lia.
Qed.

Lemma div_pow2_bounds q d k :
  0 <= k -> k < d -> 2 ^ (d - 1) <= q < 2 ^ d ->
  2 ^ (d - 1 - k) <= q / 2 ^ k < 2 ^ (d - k).
Proof.
  intros Hk Hd [Hlo Hhi].
  assert (Hp : 0 < 2 ^ k) by (apply Z.pow_pos_nonneg; lia).
  split.
  - apply Z.div_le_lower_bound; [assumption|].
    rewrite <- Z.pow_add_r by lia. replace (k + (d - 1 - k)) with (d - 1) by lia. assumption.
  - apply Z.div_lt_upper_bound; [assumption|].
    rewrite <- Z.pow_add_r by lia. replace (k + (d - k)) with d by lia. assumption.
Qed.

(** The rounding step of the double operations, on a quotient of at least
    53 bits: the quotient is brought to 53 bits and rounded to the nearest
    integer, the even one of two. *)
Lemma binary_round_aux_nearest s X D e :
  0 <= X -> 0 < D -> 2 ^ 52 <= X / D ->
  -1000 <= e -> e + Zdigits2 (X / D) <= 1000 ->
  let k := Zdigits2 (X / D) - 53 in
  let M := round_nearest_even (X / (D * 2 ^ k)) (loc_of X (D * 2 ^ k)) in
  0 <= k /\ 2 ^ 52 <= X / (D * 2 ^ k) < 2 ^ 53 /\
  binary_round_aux 53 1024 s (X / D) e (loc_of X D) = normalized s M (e + k).
Proof.
  intros HX HD Hq He Hemax k M.
  assert (Hq0 : 0 < X / D) by (change (2 ^ 52) with 4503599627370496 in Hq; lia).
  pose proof (Zdigits2_bounds (X / D) Hq0) as Hdig.
  assert (Hk : 0 <= k).
  { subst k. destruct (Z.lt_ge_cases (Zdigits2 (X / D)) 53) as [Hlt|]; [exfalso|lia].
    assert (2 ^ Zdigits2 (X / D) <= 2 ^ 52) by (apply Z.pow_le_mono_r; lia). lia. }
  assert (Hp : 0 < 2 ^ k) by (apply Z.pow_pos_nonneg; lia).
  assert (Hm1 : 2 ^ 52 <= X / (D * 2 ^ k) < 2 ^ 53).
  { rewrite <- Z.div_div by lia.
    pose proof (div_pow2_bounds (X / D) (Zdigits2 (X / D)) k Hk ltac:(lia) Hdig) as Hb.
    replace (Zdigits2 (X / D) - 1 - k) with 52 in Hb by lia.
    replace (Zdigits2 (X / D) - k) with 53 in Hb by lia. exact Hb. }
  split; [exact Hk|]. split; [exact Hm1|].
  unfold binary_round_aux, shr_fexp.
  replace (fexp 53 1024 (Zdigits2 (X / D) + e) - e) with k
    by (unfold fexp, emin; lia).
  pose proof (holds_shr _ e k X D HX HD Hk (holds_start X D HD)) as [[Hm Hl] He1].
  destruct (shr (shr_record_of_loc (X / D) (loc_of X D)) e k) as [mrs' e'].
  cbn [fst snd] in Hm, Hl, He1. rewrite Hm, Hl. fold M. subst e'.
  pose proof (round_nearest_even_spec X (D * 2 ^ k) HX ltac:(nia)) as [_ HM]. fold M in HM.
  unfold normalized.
  change (2 ^ 52) with 4503599627370496 in *. change (2 ^ 53) with 9007199254740992 in *.
  destruct (Z.eqb_spec M 9007199254740992) as [HM53|HM53].
  - rewrite HM53.
    replace (fexp 53 1024 (Zdigits2 9007199254740992 + (e + k)) - (e + k)) with 1
      by (unfold fexp, emin; cbn [Zdigits2 digits2_pos Pos.succ]; lia).
    cbn [shr shr_record_of_loc SpecFloat.iter_pos shr_1 shr_m orb].
    replace (e + k + 1 <=? 1024 - 53) with true by (symmetry; apply Z.leb_le; lia).
    reflexivity.
  - assert (Hd : Zdigits2 M = 53)
      by (apply Zdigits2_unique; [lia|]; change (2 ^ (53 - 1)) with 4503599627370496;
          change (2 ^ 53) with 9007199254740992; lia).
    rewrite Hd.
    replace (fexp 53 1024 (53 + (e + k)) - (e + k)) with 0 by (unfold fexp, emin; lia).
    cbn [shr shr_record_of_loc shr_m].
    destruct M as [|m|m]; try lia.
    replace (e + k <=? 1024 - 53) with true by (symmetry; apply Z.leb_le; lia).
    reflexivity.
Qed.

Lemma div_eucl_pair a b : Z.div_eucl a b = (a / b, a mod b).
Proof. unfold Z.div, Z.modulo. destruct (Z.div_eucl a b). reflexivity. Qed.

(** The division of an integer by 100, before its rounding. *)
Lemma SFdiv_core_hundredths p :
  let sh := Z.max (60 - Z.pos (digits2_pos p)) 0 in
  SFdiv_core_binary 53 1024 (Z.pos p) 0 100 0
  = ((Z.pos p * 2 ^ sh) / 100, - sh, loc_of (Z.pos p * 2 ^ sh) 100).
Proof.
  intros sh. unfold SFdiv_core_binary.
  change (Zdigits2 (Z.pos p)) with (Z.pos (digits2_pos p)).
  change (Zdigits2 100) with 7.
  replace (Z.min (fexp 53 1024 (Z.pos (digits2_pos p) + 0 - (7 + 0))) (0 - 0)) with (- sh)
    by (unfold fexp, emin; lia).
  replace (0 - 0 - - sh) with sh by lia.
  assert (Hm : match sh with
               | 0 => Z.pos p
               | Z.pos _ => Z.shiftl (Z.pos p) sh
               | Z.neg _ => 0
               end = Z.pos p * 2 ^ sh).
  { destruct sh as [|k|k] eqn:Hsh; [lia| |lia]. apply Z.shiftl_mul_pow2. lia. }
  rewrite Hm, div_eucl_pair. reflexivity.
Qed.

Lemma nearest_even_scale A B M c :
  0 < c -> nearest_even (A * c) (B * c) M -> nearest_even A B M.
Proof.
  unfold nearest_even. intros Hc.
  replace (A * c - M * (B * c)) with ((A - M * B) * c) by ring.
  rewrite Z.abs_mul, (Z.abs_eq c) by lia.
  intros [H1 H2]. split; [nia|]. intros H. apply H2. nia.
Qed.

(** Read back, [n] hundredths are the double nearest to [n / 100]. *)
Lemma parse_hundredths_nearest s n :
  0 < n < 2 ^ 900 -> nearest_double s n 100 (Number.parse_hundredths s n).
Proof.
  intros [Hn0 Hn]. destruct n as [|p|p]; try lia.
  unfold Number.parse_hundredths, Number.prec, Number.emax, SFdiv.
  rewrite SFdiv_core_hundredths. rewrite xorb_false_r.
  set (d := Z.pos (digits2_pos p)). set (sh := Z.max (60 - d) 0).
  pose proof (digits2_pos_bounds p) as Hd. fold d in Hd.
  assert (Hsh : 0 <= sh <= 59) by (subst sh d; lia).
  assert (Hp2 : 0 < 2 ^ sh) by (apply Z.pow_pos_nonneg; lia).
  set (X := Z.pos p * 2 ^ sh).
  assert (HX59 : 2 ^ 59 <= X).
  { subst X. destruct (Z.max_spec (60 - d) 0) as [[Hc Hs] | [Hc Hs]]; fold sh in Hs.
    - rewrite Hs, Z.pow_0_r, Z.mul_1_r.
      apply Z.le_trans with (2 ^ (d - 1)); [apply Z.pow_le_mono_r; lia | lia].
    - replace (2 ^ 59) with (2 ^ (d - 1) * 2 ^ sh)
        by (rewrite <- Z.pow_add_r by lia; f_equal; lia).
      apply Z.mul_le_mono_nonneg_r; lia. }
  assert (HXhi : X < 2 ^ 960).
  { subst X. apply Z.lt_le_trans with (2 ^ 900 * 2 ^ sh).
    - apply Z.mul_lt_mono_pos_r; lia.
    - rewrite <- Z.pow_add_r by lia. apply Z.pow_le_mono_r; lia. }
  assert (HX : 0 <= X) by (subst X; lia).
  assert (Hq : 2 ^ 52 <= X / 100).
  { apply Z.div_le_lower_bound; [lia|].
    change (2 ^ 59) with 576460752303423488 in HX59.
    change (2 ^ 52) with 4503599627370496. lia. }
  assert (Hdq : Zdigits2 (X / 100) <= 960).
  { assert (Hq0 : 0 < X / 100) by (change (2 ^ 52) with 4503599627370496 in Hq; lia).
    pose proof (Zdigits2_bounds _ Hq0) as [Hlo _].
    destruct (Z.le_gt_cases (Zdigits2 (X / 100)) 960) as [|Hgt]; [assumption|exfalso].
    assert (2 ^ 960 <= 2 ^ (Zdigits2 (X / 100) - 1)) by (apply Z.pow_le_mono_r; lia).
    assert (X / 100 <= X) by (apply Z.div_le_upper_bound; lia). lia. }
  pose proof (binary_round_aux_nearest s X 100 (- sh) HX ltac:(lia) Hq ltac:(lia) ltac:(lia))
    as [Hk [Hb Hres]].
  set (k := Zdigits2 (X / 100) - 53) in *.
  rewrite Hres.
  pose proof (round_nearest_even_spec X (100 * 2 ^ k) HX
                ltac:(assert (0 < 2 ^ k) by (apply Z.pow_pos_nonneg; lia); lia)) as [Hne _].
  set (M := round_nearest_even (X / (100 * 2 ^ k)) (loc_of X (100 * 2 ^ k))) in *.
  assert (Hpk : 0 < 2 ^ k) by (apply Z.pow_pos_nonneg; lia).
  exists M, (- sh + k). unfold scaled. cbn [fst snd].
  (* the two fractions differ by a common factor *)
  set (c := 2 ^ Z.min sh k).
  assert (Hc : 0 < c) by (apply Z.pow_pos_nonneg; lia).
  assert (HA : X = Z.pos p * 2 ^ Z.max (- (- sh + k)) 0 * c).
  { subst X c. rewrite <- Z.mul_assoc, <- Z.pow_add_r by lia. do 2 f_equal. lia. }
  assert (HB : 100 * 2 ^ k = 100 * 2 ^ Z.max (- sh + k) 0 * c).
  { subst c. rewrite <- Z.mul_assoc, <- Z.pow_add_r by lia. do 2 f_equal. lia. }
  set (A := Z.pos p * 2 ^ Z.max (- (- sh + k)) 0) in *.
  set (B := 100 * 2 ^ Z.max (- sh + k) 0) in *.
  assert (HBpos : 0 < B) by (subst B; assert (0 < 2 ^ Z.max (- sh + k) 0) by (apply Z.pow_pos_nonneg; lia); lia).
  split; [|split; [|reflexivity]].
  - rewrite HB in Hb. rewrite HA in Hb. rewrite Z.div_mul_cancel_r in Hb by lia.
    destruct Hb as [Hb1 Hb2]. split.
    + pose proof (Z.mul_div_le A B HBpos). nia.
    + pose proof (Z.mul_succ_div_gt A B HBpos). nia.
  - apply (nearest_even_scale A B M c Hc). rewrite <- HA, <- HB. exact Hne.
Qed.

(** [nearest_double] names one double: one exponent brings [a / b]
    between [2 ^ 52] and [2 ^ 53], and one integer is nearest there. *)
Lemma nearest_even_unique A B M1 M2 :
  0 < B -> nearest_even A B M1 -> nearest_even A B M2 -> M1 = M2.
Proof.
  unfold nearest_even. intros HB [H1 T1] [H2 T2].
  destruct (Z.lt_total M1 M2) as [Hlt | [Heq | Hgt]]; [exfalso | exact Heq | exfalso].
  - assert (HM : M2 = M1 + 1) by nia. subst M2.
    assert (E1 : 2 * Z.abs (A - M1 * B) = B) by nia.
    assert (E2 : 2 * Z.abs (A - (M1 + 1) * B) = B) by nia.
    specialize (T1 E1). specialize (T2 E2).
    rewrite Z.even_add, T1 in T2. discriminate T2.
  - assert (HM : M1 = M2 + 1) by nia. subst M1.
    assert (E1 : 2 * Z.abs (A - M2 * B) = B) by nia.
    assert (E2 : 2 * Z.abs (A - (M2 + 1) * B) = B) by nia.
    specialize (T1 E2). specialize (T2 E1).
    rewrite Z.even_add, T2 in T1. discriminate T1.
Qed.

Lemma binade_le a b E1 E2 :
  0 < a -> 0 < b ->
  2 ^ 52 * snd (scaled a b E1) <= fst (scaled a b E1) ->
  fst (scaled a b E2) < 2 ^ 53 * snd (scaled a b E2) ->
  E1 <= E2.
Proof.
  unfold scaled. cbn [fst snd]. intros Ha Hb H1 H2.
  set (u1 := Z.max (- E1) 0) in *. set (v1 := Z.max E1 0) in *.
  set (u2 := Z.max (- E2) 0) in *. set (v2 := Z.max E2 0) in *.
  assert (Hu1 : 0 < 2 ^ u1) by (apply Z.pow_pos_nonneg; lia).
  assert (Hu2 : 0 < 2 ^ u2) by (apply Z.pow_pos_nonneg; lia).
  assert (Hv1 : 0 < 2 ^ v1) by (apply Z.pow_pos_nonneg; lia).
  assert (Hv2 : 0 < 2 ^ v2) by (apply Z.pow_pos_nonneg; lia).
  assert (K1 : 2 ^ 52 * (b * 2 ^ v1) * 2 ^ u2 <= a * 2 ^ u1 * 2 ^ u2)
    by (apply Z.mul_le_mono_nonneg_r; lia).
  assert (K2 : a * 2 ^ u2 * 2 ^ u1 < 2 ^ 53 * (b * 2 ^ v2) * 2 ^ u1)
    by (apply Z.mul_lt_mono_pos_r; lia).
  assert (K : b * 2 ^ (52 + v1 + u2) < b * 2 ^ (53 + v2 + u1)).
  { rewrite !Z.pow_add_r by lia. lia. }
  apply Z.mul_lt_mono_pos_l in K; [|exact Hb].
  apply Z.pow_lt_mono_r_iff in K; lia.
Qed.

Lemma nearest_double_unique s a b y1 y2 :
  0 < a -> 0 < b -> nearest_double s a b y1 -> nearest_double s a b y2 -> y1 = y2.
Proof.
  intros Ha Hb [M1 [E1 [[L1 U1] [N1 ->]]]] [M2 [E2 [[L2 U2] [N2 ->]]]].
  assert (E1 = E2) as <-
    by (apply Z.le_antisymm;
        [apply (binade_le a b E1 E2 Ha Hb L1 U2) | apply (binade_le a b E2 E1 Ha Hb L2 U1)]).
  assert (HB : 0 < snd (scaled a b E1)).
  { unfold scaled. cbn [snd]. assert (0 < 2 ^ Z.max E1 0) by (apply Z.pow_pos_nonneg; lia). lia. }
  rewrite (nearest_even_unique _ _ M1 M2 HB N1 N2). reflexivity.
Qed.

(** [average] is the mean in doubles, from left to right. *)
Lemma average_double_mean l : average l = double_mean l.
Proof. reflexivity. Qed.

Lemma half_away_bounds num den :
  0 < den -> 0 <= num -> num < 10 ^ 21 * den ->
  0 <= half_away_hundredths num den < 2 ^ 900.
Proof.
  intros Hden Hnum Hlt. unfold half_away_hundredths. split.
  - apply Z.div_pos; lia.
  - apply Z.lt_le_trans with (10 ^ 24); [|apply Z.leb_le; vm_compute; reflexivity].
    apply Z.div_lt_upper_bound; [lia|].
    change (10 ^ 21) with 1000000000000000000000 in Hlt.
    change (10 ^ 24) with 1000000000000000000000000. lia.
Qed.

(** [toFixed(2)] read back by [parseFloat] is the rounding to two
    decimals, half away from zero. *)
Lemma roundFixed2_rounded x : rounded_to_2dp x (Number.roundFixed2 x).
Proof.
  destruct x as [s|s| |s m e]; try reflexivity.
  unfold Number.roundFixed2, rounded_to_2dp, Number.magnitude.
  set (num := Z.pos m * 2 ^ Z.max e 0). set (den := 2 ^ Z.max (- e) 0).
  assert (Hden : 0 < den) by (apply Z.pow_pos_nonneg; lia).
  assert (Hnum : 0 < num)
    by (apply Z.mul_pos_pos; [lia | apply Z.pow_pos_nonneg; lia]).
  cbv zeta.
  destruct (Z.leb_spec (10 ^ 21 * den) num) as [Hbig|Hsmall]; [reflexivity|].
  rewrite toFixed_n_half_away by lia.
  pose proof (half_away_bounds num den Hden ltac:(lia) Hsmall) as Hb.
  destruct (Z.eqb_spec (half_away_hundredths num den) 0) as [Hz|Hnz].
  - rewrite Hz. reflexivity.
  - apply parse_hundredths_nearest. lia.
Qed.

(** [rounded_to_2dp] names one double. *)
Lemma rounded_to_2dp_unique x y1 y2 :
  rounded_to_2dp x y1 -> rounded_to_2dp x y2 -> y1 = y2.
Proof.
  destruct x as [s|s| |s m e]; cbn [rounded_to_2dp]; try congruence.
  cbv zeta.
  set (num := Z.pos m * 2 ^ Z.max e 0). set (den := 2 ^ Z.max (- e) 0).
  assert (Hden : 0 < den) by (apply Z.pow_pos_nonneg; lia).
  assert (Hnum : 0 < num)
    by (apply Z.mul_pos_pos; [lia | apply Z.pow_pos_nonneg; lia]).
  destruct (10 ^ 21 * den <=? num); [congruence|].
  destruct (Z.eqb_spec (half_away_hundredths num den) 0) as [Hz|Hnz]; [congruence|].
  apply nearest_double_unique; [|lia].
  assert (0 <= half_away_hundredths num den)
    by (unfold half_away_hundredths; apply Z.div_pos; lia).
  lia.
Qed.


(* ===================================================================== *)
(** ** The arithmetic of the groups *)
(* ===================================================================== *)

Lemma lt_groupCount k len : (k < groupCount 900 len <-> k * 900 < len)%nat.
Proof.
  unfold groupCount. cbn [Nat.sub]. split; intros H.
  - destruct (Nat.lt_ge_cases (k * 900) len) as [|Hge]; [assumption|exfalso].
    assert ((len + 899) / 900 <= k)%nat; [|lia].
    apply Nat.lt_succ_r. apply Nat.Div0.div_lt_upper_bound. lia.
  - apply Nat.lt_le_trans with (m := ((k * 900 + 900) / 900)%nat).
    + replace (k * 900 + 900)%nat with ((k + 1) * 900)%nat by lia.
      rewrite Nat.div_mul by lia. lia.
    + apply Nat.Div0.div_le_mono. lia.
Qed.

Lemma filter_split_length {A} (f : A -> bool) (l : list A) :
  (length (List.filter (fun r => negb (f r)) l) + length (List.filter f l) = length l)%nat.
Proof.
  induction l as [|x l IH]; [reflexivity|]. cbn. destruct (f x); cbn; lia.
Qed.

Lemma Promise_all_resolved {A} (l : list A) : Promise_all (map Return l) = Return l.
Proof. induction l as [|x l IH]; [reflexivity|]. cbn. rewrite IH. reflexivity. Qed.

Lemma length_groups {A} (l : list A) : length (groups 900 l) = groupCount 900 (length l).
Proof. unfold groups. rewrite length_map, length_seq. reflexivity. Qed.

Lemma groups_lookup {A} (l : list A) k g :
  groups 900 l !! k = Some g ->
  (k < groupCount 900 (length l))%nat /\ g = take 900 (drop (k * 900) l).
Proof.
  unfold groups. intros H. apply list_lookup_fmap_Some in H as [j [Hg Hj]].
  apply lookup_seq in Hj as [-> Hlt]. cbn in Hg. split; [exact Hlt | exact Hg].
Qed.

Lemma concat_groups_from {A} (l : list A) : forall m k,
  concat (map (fun k => take 900 (drop (k * 900) l)) (seq k m))
  = take (m * 900) (drop (k * 900) l).
Proof.
  induction m as [|m IH]; intros k; [reflexivity|].
  cbn [seq map concat]. rewrite IH.
  replace (S k * 900)%nat with (k * 900 + 900)%nat by lia.
  rewrite <- drop_drop. rewrite take_take_drop. f_equal.
Qed.

Lemma concat_groups {A} (l : list A) : concat (groups 900 l) = l.
Proof.
  unfold groups. rewrite concat_groups_from. cbn [Nat.mul drop].
  apply take_ge.
  destruct (Nat.le_gt_cases (length l) (groupCount 900 (length l) * 900)) as [|Hlt];
    [assumption|].
  apply lt_groupCount in Hlt. lia.
Qed.

Lemma groups_sizes {A} (l : list A) k g :
  groups 900 l !! k = Some g ->
  (1 <= length g <= 900)%nat /\
  (S k < length (groups 900 l) -> length g = 900)%nat.
Proof.
  intros H. apply groups_lookup in H as [Hk ->].
  rewrite length_groups, length_take, length_drop.
  apply lt_groupCount in Hk. split; [lia|].
  intros Hnext. apply lt_groupCount in Hnext. lia.
Qed.

Lemma map_length_groups {A} (l : list A) :
  map length (groups 900 l)
  = map (fun k => Nat.min 900 (length l - k * 900)) (seq 0 (groupCount 900 (length l))).
Proof.
  unfold groups. rewrite map_map. apply map_ext. intros k.
  rewrite length_take, length_drop. reflexivity.
Qed.

Lemma sleeps_in_schedule (gs : list (list string)) ms :
  length (List.filter isSleep (intersperse (Sleep ms) (map Group gs)))
  = (length gs - 1)%nat.
Proof.
  induction gs as [|g [|g' gs] IH]; [reflexivity | reflexivity |].
  change (intersperse (Sleep ms) (map Group (g :: g' :: gs)))
    with (Group g :: Sleep ms :: intersperse (Sleep ms) (map Group (g' :: gs))).
  cbn [List.filter isSleep length]. rewrite IH. cbn [length]. lia.
Qed.

Lemma schedule_sleeps_last (gs : list (list string)) ms :
  gs <> [] -> exists g, last (intersperse (Sleep ms) (map Group gs)) = Some (Group g).
Proof.
  induction gs as [|g [|g' gs] IH]; intros Hne; [congruence | exists g; reflexivity |].
  destruct IH as [g0 Hg0]; [discriminate|]. exists g0.
  change (intersperse (Sleep ms) (map Group (g :: g' :: gs)))
    with (Group g :: Sleep ms :: intersperse (Sleep ms) (map Group (g' :: gs))).
  rewrite !last_cons, Hg0. reflexivity.
Qed.

Lemma schedule_sleeps_60000 SYMBOLS ms : In (Sleep ms) (schedule SYMBOLS) -> ms = 60000.
Proof.
  unfold schedule. generalize (groups 900 SYMBOLS) as gs.
  induction gs as [|g [|g' gs] IH]; cbn [map intersperse]; intros Hin.
  - destruct Hin.
  - destruct Hin as [H|[]]. discriminate H.
  - destruct Hin as [H|[H|H]]; [discriminate H | congruence | apply IH; exact H].
Qed.

(* ===================================================================== *)
(** ** processSymbol and main *)
(* ===================================================================== *)

Section Correctness.

Variable Date_parse : string -> JSDate.t.

Lemma earningMove_eval priceData e d bp ap :
  Date_parse (Earning.date e) = Some d ->
  validTime (d - JSDate.msPerDay) -> validTime (d + JSDate.msPerDay) ->
  findPriceOnDate priceData (Some (d - JSDate.msPerDay)) = Return bp ->
  findPriceOnDate priceData (Some (d + JSDate.msPerDay)) = Return ap ->
  earningMove Date_parse priceData e =
    Return (match bp, ap with
            | Some b, Some a =>
                if Number.truthy a && Number.gt b (Number.of_Z 0)
                then Some (percentMove_spec b a) else None
            | _, _ => None
            end).
Proof.
  intros Hd Hb Ha Hbp Hap. unfold earningMove. rewrite Hd. cbn [JSDate.shifted].
  replace (d + - JSDate.msPerDay) with (d - JSDate.msPerDay) by lia.
  rewrite !TimeClip_valid by assumption.
  rewrite Hbp, Hap. cbn [obind].
  destruct bp as [b|]; [|reflexivity]. destruct ap as [a|]; [|reflexivity].
  cbn [truthy].
  destruct (Number.gt b (Number.of_Z 0)) eqn:Hgt.
  - rewrite (gt_zero_truthy b Hgt). cbn [andb].
    rewrite andb_true_r. destruct (Number.truthy a); [|reflexivity].
    rewrite percentMove_as_specified by exact Hgt. reflexivity.
  - rewrite !andb_false_r. reflexivity.
Qed.

(** An event whose date does not read as a date makes the loop throw. *)
Lemma earningMove_invalid_date priceData e :
  Date_parse (Earning.date e) = None ->
  earningMove Date_parse priceData e = Throw RangeError.
Proof. intros H. unfold earningMove. rewrite H. reflexivity. Qed.

(** C2, as amended.  For every earnings event whose date reads as the
    time [d], with the look-back of both searches within the range of
    [Date]: both searches return, and a move is pushed exactly when
    both found a price, the price before is strictly positive and the
    price after is neither zero nor [NaN]; the move is then
    |after - before| / before * 100.  When either side is not found no
    move is pushed, and in no case does the event throw. *)
Theorem earningMove_observation priceData e d :
  Date_parse (Earning.date e) = Some d ->
  validTime (d - 5 * JSDate.msPerDay) -> validTime (d + JSDate.msPerDay) ->
  exists bp ap,
    findPriceOnDate priceData (Some (d - JSDate.msPerDay)) = Return bp /\
    findPriceOnDate priceData (Some (d + JSDate.msPerDay)) = Return ap /\
    (forall m, earningMove Date_parse priceData e = Return (Some m) <->
       exists b a, bp = Some b /\ ap = Some a /\
                   Number.gt b (Number.of_Z 0) = true /\ Number.truthy a = true /\
                   m = percentMove_spec b a) /\
    (bp = None \/ ap = None -> earningMove Date_parse priceData e = Return None) /\
    (exists r, earningMove Date_parse priceData e = Return r).
Proof.
  intros Hd Hlo Hhi.
  assert (Hb1 : validTime (d - JSDate.msPerDay)) by time_arith.
  destruct (findPriceOnDate_located priceData (d - JSDate.msPerDay)) as [bp [Hbp _]];
    [exact Hb1 | time_arith |].
  destruct (findPriceOnDate_located priceData (d + JSDate.msPerDay)) as [ap [Hap _]];
    [exact Hhi | time_arith |].
  exists bp, ap. split; [exact Hbp|]. split; [exact Hap|].
  rewrite (earningMove_eval priceData e d bp ap Hd Hb1 Hhi Hbp Hap).
  split; [|split].
  - intros m. split.
    + intros H. destruct bp as [b|]; [|discriminate]. destruct ap as [a|]; [|discriminate].
      destruct (Number.truthy a) eqn:Ha; [|discriminate].
      destruct (Number.gt b (Number.of_Z 0)) eqn:Hgt; [|discriminate].
      cbn in H. injection H as <-. exists b, a. auto.
    + intros [b [a [-> [-> [Hgt [Ha ->]]]]]]. rewrite Ha, Hgt. reflexivity.
  - intros [-> | ->]; [reflexivity | destruct bp; reflexivity].
  - eexists. reflexivity.
Qed.

Lemma observations_cons priceData e evs :
  observations Date_parse priceData (e :: evs) =
    match earningMove Date_parse priceData e with
    | Return (Some x) => x :: observations Date_parse priceData evs
    | _ => observations Date_parse priceData evs
    end.
Proof.
  unfold observations, observation. cbn [omap list_omap].
  destruct (earningMove Date_parse priceData e) as [[x|]|err]; reflexivity.
Qed.

Lemma collectMoves_observations priceData evs : forall moves res,
  collectMoves Date_parse priceData evs moves = Return res ->
  res = (moves ++ observations Date_parse priceData evs)%list.
Proof.
  induction evs as [|e evs IH]; intros moves res H.
  - cbn in H. injection H as <-. cbn. rewrite app_nil_r. reflexivity.
  - cbn [collectMoves] in H. rewrite observations_cons.
    destruct (earningMove Date_parse priceData e) as [m|err]; [|discriminate].
    cbn [obind] in H. apply IH in H. subst res.
    destruct m as [x|]; [rewrite <- app_assoc|]; reflexivity.
Qed.

Lemma collectMoves_returns priceData evs : forall moves,
  (forall e, In e evs -> exists r, earningMove Date_parse priceData e = Return r) ->
  collectMoves Date_parse priceData evs moves
  = Return (moves ++ observations Date_parse priceData evs)%list.
Proof.
  induction evs as [|e evs IH]; intros moves H.
  - cbn. rewrite app_nil_r. reflexivity.
  - destruct (H e (or_introl eq_refl)) as [m Hm].
    cbn [collectMoves]. rewrite observations_cons, Hm. cbn [obind].
    rewrite IH by (intros e' He'; apply H; right; exact He').
    destruct m as [x|]; [rewrite <- app_assoc|]; reflexivity.
Qed.

Lemma nextDateOf_future now evs next :
  nextDateOf Date_parse now evs = Some next ->
  exists e t, In e evs /\ Earning.date e = next /\ Date_parse next = Some t /\ now < t.
Proof.
  unfold nextDateOf. destruct (futureEarnings Date_parse now evs) as [|e rest] eqn:Hf;
    [discriminate|].
  intros [= <-].
  assert (Hin : In e (futureEarnings Date_parse now evs)) by (rewrite Hf; left; reflexivity).
  unfold futureEarnings in Hin. apply filter_In in Hin as [Hin Hgt].
  unfold JSDate.gt in Hgt. destruct (Date_parse (Earning.date e)) as [t|]; [|discriminate].
  exists e, t. repeat split; auto. apply Z.ltb_lt. exact Hgt.
Qed.

(** The three ways the [try] block ends: it returns [null] and leaves
    the cache alone, it throws before the cache is touched, or it has
    built a summary and the cache's answer decides. *)
Lemma processSymbol_try_cases io sym st :
  processSymbol_try Date_parse io sym st = (st, Return None) \/
  (exists e, processSymbol_try Date_parse io sym st = (st, Throw e)) \/
  (exists r, built Date_parse io sym r /\
     processSymbol_try Date_parse io sym st =
       match redisReply io with
       | SetOk => (<["earnings:" +:+ sym := (r, 2592000)]> st, Return (Some r))
       | SetFailed written =>
           (if written then <["earnings:" +:+ sym := (r, 2592000)]> st else st,
            Throw RedisError)
       end).
Proof.
  unfold processSymbol_try.
  destruct (calendar io) as [| |[[[|e evs]|]]] eqn:Hcal; cbn [earnings]; eauto.
  destruct (priceHistory io) as [| |[|priceData]] eqn:Hpr; eauto.
  destruct (Nat.ltb_spec (length priceData) 10); eauto.
  destruct (collectMoves Date_parse priceData (e :: evs) []) as [moves|err] eqn:Hc; eauto.
  pose proof (collectMoves_observations _ _ _ _ Hc) as Hm. cbn [app] in Hm. subst moves.
  destruct (Nat.eqb_spec (length (observations Date_parse priceData (e :: evs))) 0) as [|Hne];
    eauto.
  destruct (nextDateOf Date_parse (today io) (e :: evs)) as [[|c next]|] eqn:Hn; eauto.
  right. right. eexists. split.
  - exists (e :: evs), priceData, (String c next).
    repeat split; eauto; try discriminate.
    intros Hnil. rewrite Hnil in Hne. apply Hne. reflexivity.
  - unfold redis_set. destruct (redisReply io) as [|written]; reflexivity.
Qed.

(** What a returned summary tells about the call that returned it. *)
Lemma processSymbol_summary io sym st st' r :
  processSymbol Date_parse io sym st = (st', Return (Some r)) ->
  built Date_parse io sym r /\
  redisReply io = SetOk /\
  st' = <["earnings:" +:+ sym := (r, 2592000)]> st.
Proof.
  unfold processSymbol. intros H.
  destruct (processSymbol_try_cases io sym st) as [Hc | [[e Hc] | [r0 [Hb Hc]]]];
    rewrite Hc in H; try discriminate H.
  destruct (redisReply io) as [|written]; [|discriminate H].
  cbn [try_catch_null] in H. injection H as <- <-. auto.
Qed.

(** What a call does to the cache: nothing, or one write of a summary it
    built, under the key of its symbol, for 2592000 seconds. *)
Lemma processSymbol_store io sym st :
  fst (processSymbol Date_parse io sym st) = st \/
  exists r, built Date_parse io sym r /\
    fst (processSymbol Date_parse io sym st) = <["earnings:" +:+ sym := (r, 2592000)]> st.
Proof.
  unfold processSymbol.
  destruct (processSymbol_try_cases io sym st) as [Hc | [[e Hc] | [r0 [Hb Hc]]]];
    rewrite Hc; auto.
  destruct (redisReply io) as [|[|]]; cbn [fst]; eauto.
Qed.

(** A built summary has a mean behind it and a date ahead of it. *)
Lemma built_future io sym r :
  built Date_parse io sym r ->
  exists t, Date_parse (nextDate r) = Some t /\ today io < t.
Proof.
  intros [evs [priceData [next [_ [_ [_ [_ [_ [Hn [_ ->]]]]]]]]]]. cbn [nextDate].
  apply nextDateOf_future in Hn as [e [t [_ [_ [Ht Hlt]]]]]. eauto.
Qed.

(** [processSymbol] never rejects. *)
Lemma processSymbol_resolves io sym st :
  exists r, snd (processSymbol Date_parse io sym st) = Return r.
Proof.
  unfold processSymbol. destruct (processSymbol_try Date_parse io sym st) as [st' [r|err]];
    cbn; eauto.
Qed.

Lemma processSymbol_result io sym st :
  snd (processSymbol Date_parse io sym st) = Return (resultOf Date_parse io sym).
Proof.
  unfold resultOf, processSymbol, processSymbol_try.
  destruct (calendar io) as [| |[[[|e evs]|]]]; try reflexivity.
  cbn [earnings].
  destruct (priceHistory io) as [| |[|priceData]]; try reflexivity.
  destruct (length priceData <? 10)%nat; [reflexivity|].
  destruct (collectMoves Date_parse priceData (e :: evs) []) as [moves|err]; [|reflexivity].
  destruct (length moves =? 0)%nat; [reflexivity|].
  destruct (nextDateOf Date_parse (today io) (e :: evs)) as [[|c next]|]; try reflexivity.
  unfold redis_set. destruct (redisReply io) as [|written]; reflexivity.
Qed.

Lemma startBatch_results world batch : forall i st,
  snd (startBatch Date_parse world i batch st)
  = map Return (imap (fun j sym => resultOf Date_parse (world (i + j)%nat) sym) batch).
Proof.
  induction batch as [|sym rest IH]; intros i st; [reflexivity|].
  cbn [startBatch].
  pose proof (processSymbol_result (world i) sym st) as Hp.
  destruct (processSymbol Date_parse (world i) sym st) as [st1 p]. cbn [snd] in Hp.
  specialize (IH (S i) st1).
  destruct (startBatch Date_parse world (S i) rest st1) as [st2 ps]. cbn [snd] in *.
  subst p ps. cbn [imap map]. rewrite Nat.add_0_r. f_equal. f_equal.
  apply imap_ext. intros j x _. cbn. f_equal. f_equal. lia.
Qed.

(** One turn of the loop of [main]. *)
Lemma main_loop_step world SYMBOLS i run :
  main_loop Date_parse world SYMBOLS i run =
    if lt_dec i (length SYMBOLS) then
      let batch := slice SYMBOLS i (i + BATCH_SIZE) in
      let started := startBatch Date_parse world i batch (cache run) in
      match Promise_all (snd started) with
      | Throw e => Throw e
      | Return results =>
          main_loop Date_parse world SYMBOLS (i + BATCH_SIZE)
            {| processed := processed run + length batch;
               successful := successful run
                             + length (List.filter (fun r => negb (isNull r)) results);
               failed := failed run + length (List.filter isNull results);
               cache := fst started;
               trace := trace run ++ Group batch ::
                        (if lt_dec (i + BATCH_SIZE) (length SYMBOLS)
                         then [Sleep 60000] else []) |}
      end
    else Return run.
Proof.
  rewrite main_loop_equation_1.
  destruct (lt_dec i (length SYMBOLS)); reflexivity.
Qed.

Lemma startBatch_cache world SYMBOLS st0 batch : forall i st,
  (forall j sym, batch !! j = Some sym -> SYMBOLS !! (i + j)%nat = Some sym) ->
  persisted Date_parse world SYMBOLS st0 st ->
  persisted Date_parse world SYMBOLS st0 (fst (startBatch Date_parse world i batch st)).
Proof.
  induction batch as [|sym rest IH]; intros i st Hidx Hst; [exact Hst|].
  cbn [startBatch].
  pose proof (processSymbol_store (world i) sym st) as Hstore.
  destruct (processSymbol Date_parse (world i) sym st) as [st1 p]. cbn [fst] in Hstore.
  specialize (IH (S i) st1).
  destruct (startBatch Date_parse world (S i) rest st1) as [st2 ps]. cbn [fst] in *.
  apply IH.
  - intros j s Hj. replace (S i + j)%nat with (i + S j)%nat by lia. apply Hidx. exact Hj.
  - destruct Hstore as [-> | [r [Hb ->]]]; [exact Hst|].
    intros key v ex Hlook.
    destruct (decide ("earnings:" +:+ sym = key)) as [<-|Hne].
    + rewrite lookup_insert_eq in Hlook. injection Hlook as <- <-.
      right. exists i, sym. repeat split; auto.
      rewrite <- (Nat.add_0_r i). apply Hidx. reflexivity.
    + rewrite lookup_insert_ne in Hlook by exact Hne. apply Hst. exact Hlook.
Qed.

Lemma groupAt_lookup SYMBOLS k j sym :
  groupAt SYMBOLS k !! j = Some sym -> SYMBOLS !! (k * 900 + j)%nat = Some sym.
Proof.
  unfold groupAt. intros H. apply lookup_take_Some in H as [H _].
  rewrite lookup_drop in H. exact H.
Qed.

(** The results of the symbols from position [k * 900] on: those of the
    group at [k], then those of the later groups. *)
Lemma results_from_split world SYMBOLS k :
  imap (fun j sym => resultOf Date_parse (world (k * 900 + j)%nat) sym)
       (drop (k * 900) SYMBOLS)
  = (imap (fun j sym => resultOf Date_parse (world (k * 900 + j)%nat) sym)
          (groupAt SYMBOLS k)
     ++ imap (fun j sym => resultOf Date_parse (world (S k * 900 + j)%nat) sym)
             (drop (S k * 900) SYMBOLS))%list.
Proof.
  rewrite <- (take_drop 900 (drop (k * 900) SYMBOLS)) at 1.
  rewrite imap_app. fold (groupAt SYMBOLS k). f_equal.
  rewrite drop_drop. replace (k * 900 + 900)%nat with (S k * 900)%nat by lia.
  destruct (Nat.le_gt_cases (length SYMBOLS) (S k * 900)) as [Hle|Hgt].
  - rewrite (drop_ge SYMBOLS (S k * 900)) by exact Hle. reflexivity.
  - apply imap_ext. intros j sym _. cbn. f_equal. f_equal.
    unfold groupAt. rewrite length_take, length_drop. lia.
Qed.

(** The loop of [main], entered at the group of rank [k] with [m] groups
    to go. *)
Lemma main_loop_schedule world SYMBOLS st0 : forall m k run,
  (groupCount 900 (length SYMBOLS) - k = m)%nat ->
  exists run',
    main_loop Date_parse world SYMBOLS (k * 900) run = Return run' /\
    trace run' = (trace run
                  ++ intersperse (Sleep 60000) (map Group (map (groupAt SYMBOLS) (seq k m))))%list /\
    (processed run' = processed run + (length SYMBOLS - k * 900))%nat /\
    (successful run' = successful run
       + length (List.filter (fun r => negb (isNull r))
                   (imap (fun j sym => resultOf Date_parse (world (k * 900 + j)%nat) sym)
                         (drop (k * 900) SYMBOLS))))%nat /\
    (failed run' = failed run
       + length (List.filter isNull
                   (imap (fun j sym => resultOf Date_parse (world (k * 900 + j)%nat) sym)
                         (drop (k * 900) SYMBOLS))))%nat /\
    (persisted Date_parse world SYMBOLS st0 (cache run) ->
     persisted Date_parse world SYMBOLS st0 (cache run')).
Proof.
  induction m as [|m IH]; intros k run Hm; rewrite main_loop_step.
  - destruct (lt_dec (k * 900) (length SYMBOLS)) as [Hlt|Hge].
    + apply lt_groupCount in Hlt. lia.
    + exists run. rewrite drop_ge by lia. cbn. rewrite app_nil_r.
      repeat split; auto; lia.
  - destruct (lt_dec (k * 900) (length SYMBOLS)) as [Hlt|Hge].
    2:{ exfalso. apply Hge. apply lt_groupCount. lia. }
    cbv zeta. rewrite startBatch_results, Promise_all_resolved.
    assert (Hbatch : slice SYMBOLS (k * 900) (k * 900 + BATCH_SIZE) = groupAt SYMBOLS k).
    { unfold slice, groupAt, BATCH_SIZE. f_equal. lia. }
    rewrite Hbatch.
    set (batch := groupAt SYMBOLS k).
    set (results := imap _ batch).
    assert (Hlen : length batch = Nat.min 900 (length SYMBOLS - k * 900)).
    { unfold batch, groupAt. rewrite length_take, length_drop. reflexivity. }
    unfold BATCH_SIZE in *.
    replace (k * 900 + 900)%nat with ((S k) * 900)%nat by lia.
    match goal with |- context [main_loop _ _ _ _ ?r] => set (run1 := r) end.
    destruct (IH (S k) run1 ltac:(lia)) as [run' [Hrun [Htr [Hpr [Hsu [Hfa Hca]]]]]].
    exists run'. split; [exact Hrun|].
    rewrite (results_from_split world SYMBOLS k), !List.filter_app, !length_app.
    fold batch. fold results.
    split; [|split; [|split; [|split]]].
    + rewrite Htr. unfold run1. cbn [trace seq map]. rewrite <- app_assoc. f_equal.
      destruct (lt_dec (S k * 900) (length SYMBOLS)) as [Hmore|Hlast].
      * apply lt_groupCount in Hmore. destruct m as [|m]; [lia|]. reflexivity.
      * assert (m = 0%nat) as ->.
        { destruct m; [reflexivity|]. exfalso. apply Hlast. apply lt_groupCount. lia. }
        reflexivity.
    + rewrite Hpr. unfold run1. cbn [processed]. lia.
    + rewrite Hsu. unfold run1. cbn [successful]. lia.
    + rewrite Hfa. unfold run1. cbn [failed]. lia.
    + intros Hst. apply Hca. unfold run1. cbn [cache].
      apply startBatch_cache; [|exact Hst].
      intros j sym Hj. apply groupAt_lookup. exact Hj.
Qed.

(** [main] resolves, with the run the description asks for. *)
Lemma main_run world SYMBOLS st :
  exists run,
    main Date_parse world SYMBOLS st = Return run /\
    trace run = schedule SYMBOLS /\
    processed run = length SYMBOLS /\
    successful run
      = length (List.filter (fun r => negb (isNull r)) (allResults Date_parse world SYMBOLS)) /\
    failed run = length (List.filter isNull (allResults Date_parse world SYMBOLS)) /\
    persisted Date_parse world SYMBOLS st (cache run).
Proof.
  unfold main.
  destruct (main_loop_schedule world SYMBOLS st (groupCount 900 (length SYMBOLS)) 0
              {| processed := 0; successful := 0; failed := 0; cache := st; trace := [] |}
              ltac:(lia))
    as [run [Hrun [Htr [Hpr [Hsu [Hfa Hca]]]]]].
  exists run. cbn [Nat.mul Nat.add drop trace processed successful failed cache app] in *.
  repeat split; auto; try lia.
  apply Hca. intros key v ex H. left. exact H.
Qed.


Lemma processSymbol_try_throws io sym st e :
  snd (processSymbol_try Date_parse io sym st) = Throw e ->
  resultOf Date_parse io sym = None.
Proof.
  intros H. pose proof (processSymbol_result io sym st) as Hr.
  unfold processSymbol in Hr.
  destruct (processSymbol_try Date_parse io sym st) as [st' r]. cbn [snd] in *.
  subst r. cbn in Hr. congruence.
Qed.

Lemma processSymbol_write_fails io sym st written :
  redisReply io = SetFailed written ->
  snd (processSymbol Date_parse io sym st) = Return None.
Proof.
  intros Hw. unfold processSymbol.
  destruct (processSymbol_try_cases io sym st) as [Hc | [[e Hc] | [r0 [Hb Hc]]]];
    rewrite Hc; try reflexivity.
  rewrite Hw. reflexivity.
Qed.

(** The first future event in the order of the calendar. *)
Lemma nextDateOf_first now evs next :
  nextDateOf Date_parse now evs = Some next <->
  exists pre e post,
    evs = (pre ++ e :: post)%list /\ Earning.date e = next /\
    JSDate.gt (Date_parse (Earning.date e)) (Some now) = true /\
    (forall q, In q pre -> JSDate.gt (Date_parse (Earning.date q)) (Some now) = false).
Proof.
  unfold nextDateOf, futureEarnings. split.
  - induction evs as [|a evs IH]; cbn [List.filter]; [discriminate|].
    destruct (JSDate.gt (Date_parse (Earning.date a)) (Some now)) eqn:Ha.
    + intros [= <-]. exists [], a, evs. repeat split; auto. intros q [].
    + intros H. destruct (IH H) as [pre [e [post [-> [He [Hf Hpre]]]]]].
      exists (a :: pre), e, post. repeat split; auto.
      intros q [<-|Hq]; auto.
  - intros [pre [e [post [-> [He [Hf Hpre]]]]]].
    induction pre as [|a pre IH]; cbn [app List.filter].
    + rewrite Hf, He. reflexivity.
    + rewrite (Hpre a (or_introl eq_refl)). apply IH.
      intros q Hq. apply Hpre. right. exact Hq.
Qed.

(** When the calendar lists its events in the order of their dates, the
    first future event is the earliest one. *)
Lemma nextDateOf_earliest_when_sorted now evs next :
  StronglySorted (fun a b => JSDate.gt (Date_parse (Earning.date a))
                                       (Date_parse (Earning.date b)) = false) evs ->
  nextDateOf Date_parse now evs = Some next ->
  forall e, In e evs -> JSDate.gt (Date_parse (Earning.date e)) (Some now) = true ->
    JSDate.gt (Date_parse next) (Date_parse (Earning.date e)) = false.
Proof.
  intros Hsorted Hnext e Hin Hfut.
  apply nextDateOf_first in Hnext as [pre [f [post [-> [<- [Hf Hpre]]]]]].
  apply in_app_or in Hin as [Hin | [<- | Hin]].
  - rewrite (Hpre e Hin) in Hfut. discriminate.
  - unfold JSDate.gt. destruct (Date_parse (Earning.date f)); [apply Z.ltb_irrefl | reflexivity].
  - induction pre as [|a pre IH]; cbn [app] in Hsorted.
    + apply StronglySorted_inv in Hsorted as [_ Hall].
      rewrite Forall_forall in Hall. apply Hall. apply list_elem_of_In. exact Hin.
    + apply StronglySorted_inv in Hsorted as [Hrest _]. apply IH; [exact Hrest|].
      intros q Hq. apply Hpre. right. exact Hq.
Qed.

(** C4 (amended).  Whenever [processSymbol] returns a summary, the
    events gave at least one move, and [avgMove] is the mean of the moves
    as doubles compute it (their sum from left to right, every addition
    rounded to a double, over their number) rounded to two decimals,
    half away from zero on the exact value of that mean: the double
    nearest to that many hundredths, and no other.  The moves 5, 10 and
    15 give exactly 10. *)
Theorem avgMove_rounded_mean io sym st st' r :
  processSymbol Date_parse io sym st = (st', Return (Some r)) ->
  (exists priceData evs,
     calendar io = Body {| earnings := Some evs |} /\
     priceHistory io = Body (PriceArray priceData) /\
     observations Date_parse priceData evs <> [] /\
     forall y, rounded_to_2dp (double_mean (observations Date_parse priceData evs)) y
               <-> y = avgMove r) /\
  (forall y, rounded_to_2dp (double_mean [Number.of_Z 5; Number.of_Z 10; Number.of_Z 15]) y
             <-> y = Number.of_Z 10).
Proof.
  intros H. split.
  - apply processSymbol_summary in H as [[evs [priceData [next Hb]]] _].
    destruct Hb as [Hcal [Hpr [_ [_ [Hobs [_ [_ ->]]]]]]].
    exists priceData, evs. cbn [avgMove].
    pose proof (average_double_mean (observations Date_parse priceData evs)) as Hmean.
    set (mean := double_mean (observations Date_parse priceData evs)) in *.
    repeat split; auto.
    + intros Hy. apply (rounded_to_2dp_unique _ _ _ Hy).
      rewrite <- Hmean. apply roundFixed2_rounded.
    + intros ->. rewrite <- Hmean. apply roundFixed2_rounded.
  - pose proof (roundFixed2_rounded
                  (double_mean [Number.of_Z 5; Number.of_Z 10; Number.of_Z 15])) as Hx.
    replace (Number.roundFixed2
               (double_mean [Number.of_Z 5; Number.of_Z 10; Number.of_Z 15]))
      with (Number.of_Z 10) in Hx by (vm_compute; reflexivity).
    intros y. split.
    + intros Hy. exact (rounded_to_2dp_unique _ _ _ Hy Hx).
    + intros ->. exact Hx.
Qed.

(** C5.  For every universe, [main] resolves, and what it did is, in
    order: the contiguous groups of at most 900 symbols, one after the
    other, with a pause of 60000 ms between two consecutive groups and
    none after the last.  The groups put end to end are the universe,
    every group but the last holds exactly 900 symbols, and the pauses
    are one fewer than the groups; 1801 symbols give groups of 900, 900
    and 1 and two pauses. *)
Theorem main_groups_and_cooldowns world SYMBOLS st :
  exists run,
    main Date_parse world SYMBOLS st = Return run /\
    trace run = intersperse (Sleep 60000) (map Group (groups 900 SYMBOLS)) /\
    concat (groups 900 SYMBOLS) = SYMBOLS /\
    (forall k g, groups 900 SYMBOLS !! k = Some g ->
       (1 <= length g <= 900)%nat /\
       (S k < length (groups 900 SYMBOLS) -> length g = 900)%nat) /\
    length (List.filter isSleep (trace run)) = (length (groups 900 SYMBOLS) - 1)%nat /\
    (forall ms, In (Sleep ms) (trace run) -> ms = 60000) /\
    (SYMBOLS <> [] -> exists g, last (trace run) = Some (Group g)) /\
    (length SYMBOLS = 1801%nat ->
       map length (groups 900 SYMBOLS) = [900; 900; 1]%nat /\
       length (List.filter isSleep (trace run)) = 2%nat).
Proof.
  destruct (main_run world SYMBOLS st) as [run [Hrun [Htr _]]].
  exists run. split; [exact Hrun|]. unfold schedule in Htr. rewrite Htr.
  split; [reflexivity|]. split; [apply concat_groups|].
  split; [apply groups_sizes|]. split; [apply sleeps_in_schedule|].
  split; [intros ms; apply schedule_sleeps_60000|]. split.
  - intros Hne. apply schedule_sleeps_last.
    intros Hnil. apply (f_equal length) in Hnil. rewrite length_groups in Hnil.
    destruct SYMBOLS as [|sym rest]; [congruence|].
    assert (0 < groupCount 900 (length (sym :: rest)))%nat
      by (apply lt_groupCount; cbn; lia).
    cbn [length] in *. lia.
  - intros Hlen. rewrite sleeps_in_schedule, length_groups, map_length_groups, Hlen.
    split; reflexivity.
Qed.

(** C6.  For every group of symbols, every promise of the group resolves
    and [Promise.all] resolves with one result per symbol, in order; the
    result of a symbol is what its own fetches and its own cache answer
    make it, whatever happens to the others; a symbol whose [try] block
    threw contributes [null].  Over the whole run, [main] resolves, every
    symbol is processed, and the symbols that gave [null] are the ones
    counted as failed. *)
Theorem symbol_error_is_contained world i batch st SYMBOLS st0 :
  (exists results,
     Promise_all (snd (startBatch Date_parse world i batch st)) = Return results /\
     length results = length batch /\
     (forall j sym, batch !! j = Some sym ->
        results !! j = Some (resultOf Date_parse (world (i + j)%nat) sym)) /\
     (forall j sym st1 e, batch !! j = Some sym ->
        snd (processSymbol_try Date_parse (world (i + j)%nat) sym st1) = Throw e ->
        results !! j = Some None)) /\
  (exists run,
     main Date_parse world SYMBOLS st0 = Return run /\
     processed run = length SYMBOLS /\
     failed run = length (List.filter isNull (allResults Date_parse world SYMBOLS)) /\
     successful run
     = length (List.filter (fun r => negb (isNull r)) (allResults Date_parse world SYMBOLS)) /\
     (successful run + failed run = length SYMBOLS)%nat).
Proof.
  split.
  - eexists. rewrite startBatch_results, Promise_all_resolved.
    split; [reflexivity|]. split; [apply length_imap|].
    assert (Hres : forall j sym, batch !! j = Some sym ->
              imap (fun j sym => resultOf Date_parse (world (i + j)%nat) sym) batch !! j
              = Some (resultOf Date_parse (world (i + j)%nat) sym)).
    { intros j sym Hj. rewrite list_lookup_imap, Hj. reflexivity. }
    split; [exact Hres|].
    intros j sym st1 e Hj Hthrow. rewrite (Hres j sym Hj).
    rewrite (processSymbol_try_throws _ _ _ _ Hthrow). reflexivity.
  - destruct (main_run world SYMBOLS st0) as [run [Hrun [_ [Hpr [Hsu [Hfa _]]]]]].
    exists run. repeat split; auto.
    rewrite Hsu, Hfa, filter_split_length. unfold allResults. apply length_imap.
Qed.

(** C7.  A symbol with no earnings event gives no summary, whatever its
    price history is, and whatever the price fetch would have answered;
    a symbol with fewer than ten price points gives no summary, whatever
    its events are.  Both are returns of [null] out of the [try] block,
    not exceptions, and the cache is left as it was. *)
Theorem skip_without_events_or_prices io sym st :
  (calendar io = Body {| earnings := Some [] |} ->
   processSymbol_try Date_parse io sym st = (st, Return None)) /\
  (forall priceData,
     calendar io <> Rejected ->
     priceHistory io = Body (PriceArray priceData) ->
     (length priceData < 10)%nat ->
     processSymbol_try Date_parse io sym st = (st, Return None)).
Proof.
  split.
  - intros Hcal. unfold processSymbol_try. rewrite Hcal. reflexivity.
  - intros priceData Hcal Hpr Hlen. unfold processSymbol_try.
    destruct (calendar io) as [| |[[[|e evs]|]]]; cbn [earnings];
      try reflexivity; [congruence|].
    rewrite Hpr. destruct (Nat.ltb_spec (length priceData) 10); [reflexivity | lia].
Qed.

(** C8.  After a run of [main], every entry of the cache that the run
    wrote is the summary of a symbol of the universe whose events gave
    at least one move, of which [avgMove] is the rounded mean, and
    whose [nextDate] reads as a time strictly later than the [today] of
    that symbol's call. *)
Theorem persisted_summary_invariant world SYMBOLS st run key v ex :
  main Date_parse world SYMBOLS st = Return run ->
  cache run !! key = Some (v, ex) ->
  st !! key = Some (v, ex) \/
  exists j sym priceData evs t,
    SYMBOLS !! j = Some sym /\ key = "earnings:" +:+ sym /\
    calendar (world j) = Body {| earnings := Some evs |} /\
    priceHistory (world j) = Body (PriceArray priceData) /\
    observations Date_parse priceData evs <> [] /\
    avgMove v = round_half_away_2dp (average (observations Date_parse priceData evs)) /\
    Date_parse (nextDate v) = Some t /\ today (world j) < t.
Proof.
  intros Hmain Hlook.
  destruct (main_run world SYMBOLS st) as [run' [Hrun [_ [_ [_ [_ Hper]]]]]].
  rewrite Hmain in Hrun. injection Hrun as <-.
  destruct (Hper key v ex Hlook) as [Hold | [j [sym [Hj [Hkey [_ Hb]]]]]]; [left; exact Hold|].
  right. destruct (built_future _ _ _ Hb) as [t [Ht Hlt]].
  destruct Hb as [evs [priceData [next [Hcal [Hpr [_ [_ [Hobs [_ [_ ->]]]]]]]]]].
  exists j, sym, priceData, evs, t. cbn [avgMove nextDate] in *.
  rewrite roundFixed2_half_away. repeat split; auto.
Qed.

(** C9.  A summary that [processSymbol] returns has been written under
    the key "earnings:" followed by the symbol, with an expiry of
    2592000 seconds; the entry replaces whatever the key held and no
    other key changes.  Two symbols never share a key.  When the write
    fails, [processSymbol] resolves with [null]; and in a group every
    promise resolves, so [Promise.all] does too. *)
Theorem cache_write_contract io sym st world i batch :
  (forall st' r, processSymbol Date_parse io sym st = (st', Return (Some r)) ->
     st' = <["earnings:" +:+ sym := (r, 2592000)]> st /\
     st' !! ("earnings:" +:+ sym) = Some (r, 2592000) /\
     (forall key, key <> "earnings:" +:+ sym -> st' !! key = st !! key)) /\
  (forall other, "earnings:" +:+ sym = "earnings:" +:+ other -> sym = other) /\
  (forall written, redisReply io = SetFailed written ->
     snd (processSymbol Date_parse io sym st) = Return None) /\
  (exists results,
     Promise_all (snd (startBatch Date_parse world i batch st)) = Return results /\
     length results = length batch).
Proof.
  split; [|split; [|split]].
  - intros st' r H. apply processSymbol_summary in H as [_ [_ ->]].
    split; [reflexivity|]. split; [apply lookup_insert_eq|].
    intros key Hne. apply lookup_insert_ne. congruence.
  - intros other H. injection H as H. exact H.
  - intros written. apply processSymbol_write_fails.
  - eexists. rewrite startBatch_results, Promise_all_resolved.
    split; [reflexivity | apply length_imap].
Qed.

End Correctness.

(* ===================================================================== *)
(** ** The worked inputs, run *)
(* ===================================================================== *)

Lemma validTime_compute v : (Z.abs v <=? JSDate.maxTime) = true -> validTime v.
Proof. unfold validTime. apply Z.leb_le. Qed.

(** 2024-01-06 is a Saturday; the series stops on 2024-01-03, three days
    back, and that close is returned. *)
Lemma findPriceOnDate_window_witness :
  validTime Example.saturday /\
  validTime (Example.saturday - 4 * JSDate.msPerDay) /\
  findPriceOnDate Example.series (Some Example.saturday) = Return (Some (Number.of_Z 110)).
Proof.
  assert (H0 : validTime Example.saturday) by (apply validTime_compute; reflexivity).
  assert (H4 : validTime (Example.saturday - 4 * JSDate.msPerDay))
    by (apply validTime_compute; reflexivity).
  split; [exact H0|]. split; [exact H4|].
  destruct (findPriceOnDate_window Example.series Example.saturday H0 H4) as [_ [Hhit _]].
  apply (Hhit 3 (Example.point "2024-01-03" 110)); [lia | | reflexivity].
  intros j Hj [p [Hin Hd]].
  assert (Hcases : j = 0 \/ j = 1 \/ j = 2) by lia.
  destruct Hin as [<- | [<- | []]]; destruct Hcases as [-> | [-> | ->]];
    vm_compute in Hd; discriminate Hd.
Defined.

(** Of the two points on 2024-01-03 the first, closing at 110, is the one
    returned. *)
Lemma findPriceOnDate_first_of_duplicates_witness :
  validTime Example.saturday /\
  validTime (Example.saturday - 4 * JSDate.msPerDay) /\
  findPriceOnDate Example.duplicated (Some Example.saturday)
  = Return (Some (Number.of_Z 110)).
Proof.
  assert (H0 : validTime Example.saturday) by (apply validTime_compute; reflexivity).
  assert (H4 : validTime (Example.saturday - 4 * JSDate.msPerDay))
    by (apply validTime_compute; reflexivity).
  split; [exact H0|]. split; [exact H4|].
  destruct (findPriceOnDate_first_of_duplicates Example.saturday H0 H4) as [_ Hfirst].
  apply (Hfirst [Example.point "2024-01-02" 100] (Example.point "2024-01-03" 110)
                [Example.point "2024-01-03" 120] 3); [lia | reflexivity | |].
  - intros q [<- | []]. vm_compute. discriminate.
  - intros j Hj [p [Hin Hd]].
    assert (Hcases : j = 0 \/ j = 1 \/ j = 2) by lia.
    destruct Hin as [<- | [<- | [<- | []]]]; destruct Hcases as [-> | [-> | ->]];
      vm_compute in Hd; discriminate Hd.
Defined.

(** An announcement on 2024-02-01, 100 the day before and 110 the day
    after: a move of 10 percent. *)
Lemma earningMove_observation_witness :
  JSDate.parseISODate "2024-02-01" = Some 1706745600000 /\
  validTime (1706745600000 - 5 * JSDate.msPerDay) /\
  validTime (1706745600000 + JSDate.msPerDay) /\
  earningMove JSDate.parseISODate Example.prices (Example.earning "2024-02-01")
  = Return (Some (Number.of_Z 10)).
Proof.
  assert (Hd : JSDate.parseISODate (Earning.date (Example.earning "2024-02-01"))
               = Some 1706745600000) by (vm_compute; reflexivity).
  assert (Hlo : validTime (1706745600000 - 5 * JSDate.msPerDay))
    by (apply validTime_compute; reflexivity).
  assert (Hhi : validTime (1706745600000 + JSDate.msPerDay))
    by (apply validTime_compute; reflexivity).
  split; [exact Hd|]. split; [exact Hlo|]. split; [exact Hhi|].
  destruct (earningMove_observation JSDate.parseISODate Example.prices
              (Example.earning "2024-02-01") 1706745600000 Hd Hlo Hhi)
    as [bp [ap [Hbp [Hap [Hiff _]]]]].
  apply Hiff. exists (Number.of_Z 100), (Number.of_Z 110).
  vm_compute in Hbp. vm_compute in Hap.
  injection Hbp as <-. injection Hap as <-.
  repeat split; vm_compute; reflexivity.
Defined.

(** C2, as it is worded, fails: with a close of 0 the day after, both
    prices are found and the price before is positive, and no move is
    pushed. *)
Lemma zero_close_after_is_no_observation :
  ~ (forall priceData e d,
       JSDate.parseISODate (Earning.date e) = Some d ->
       validTime (d - 5 * JSDate.msPerDay) -> validTime (d + JSDate.msPerDay) ->
       ((exists m, earningMove JSDate.parseISODate priceData e = Return (Some m)) <->
        (exists b a,
           findPriceOnDate priceData (Some (d - JSDate.msPerDay)) = Return (Some b) /\
           findPriceOnDate priceData (Some (d + JSDate.msPerDay)) = Return (Some a) /\
           Number.gt b (Number.of_Z 0) = true))).
Proof.
  intros H.
  destruct (H Example.zeroAfter (Example.earning "2024-02-01") 1706745600000) as [_ Hback].
  - vm_compute. reflexivity.
  - apply validTime_compute. reflexivity.
  - apply validTime_compute. reflexivity.
  - destruct Hback as [m Hm].
    + exists (Number.of_Z 100), (S754_zero false). repeat split; vm_compute; reflexivity.
    + vm_compute in Hm. discriminate Hm.
Qed.

(** C1 (the program departs from it).  The calendar lists 2025-01-01
    before 2024-12-01; both are after 2024-06-01, and the summary carries
    2025-01-01, the first of them in the list, not the earlier one. *)
Theorem nextDate_is_first_future_in_input_order :
  snd (processSymbol JSDate.parseISODate Example.io_unordered "AAPL" ∅)
  = Return (Some {| symbol := "AAPL"; nextDate := "2025-01-01";
                    avgMove := Number.of_Z 10;
                    lastUpdated := "2024-06-01T00:00:00.000Z" |}) /\
  JSDate.gt (JSDate.parseISODate "2024-12-01") (Some (today Example.io_unordered)) = true /\
  JSDate.gt (JSDate.parseISODate "2025-01-01") (JSDate.parseISODate "2024-12-01") = true.
Proof. repeat split; vm_compute; reflexivity. Qed.

(** Moves of 5, 10 and 15 percent: a mean of 10. *)
Lemma avgMove_rounded_mean_witness :
  processSymbol JSDate.parseISODate Example.io_mean "AAPL" ∅
  = (<["earnings:AAPL" := (Example.summary, 2592000)]> ∅, Return (Some Example.summary)) /\
  observations JSDate.parseISODate Example.history
    [Example.earning "2023-03-01"; Example.earning "2023-06-01";
     Example.earning "2023-09-01"; Example.earning "2024-12-01"]
  = [Number.of_Z 5; Number.of_Z 10; Number.of_Z 15] /\
  (exists priceData evs,
     calendar Example.io_mean = Body {| earnings := Some evs |} /\
     priceHistory Example.io_mean = Body (PriceArray priceData) /\
     observations JSDate.parseISODate priceData evs <> [] /\
     forall y, rounded_to_2dp (double_mean (observations JSDate.parseISODate priceData evs)) y
               <-> y = avgMove Example.summary).
Proof.
  assert (H : processSymbol JSDate.parseISODate Example.io_mean "AAPL" ∅
              = (<["earnings:AAPL" := (Example.summary, 2592000)]> ∅,
                 Return (Some Example.summary)))
    by (vm_compute; reflexivity).
  split; [exact H|]. split; [vm_compute; reflexivity|].
  exact (proj1 (avgMove_rounded_mean JSDate.parseISODate Example.io_mean "AAPL" ∅ _ _ H)).
Defined.

(** C4 as worded does not hold.  Closes of 10000 then 10001 and of 10000
    then 10002 give the moves 0.01 and 0.02, as doubles.  The exact mean
    of the two doubles is above 0.015 and rounds to 0.02.  Their sum in
    doubles is the double under 0.03, its half is under 0.015, and the
    summary carries 0.01. *)
Theorem exact_mean_is_not_avgMove :
  exists r obs,
    processSymbol JSDate.parseISODate Example.io_cents "AAPL" ∅
    = (<["earnings:AAPL" := (r, 2592000)]> ∅, Return (Some r)) /\
    observations JSDate.parseISODate Example.cents
      [Example.earning "2023-03-01"; Example.earning "2023-06-01";
       Example.earning "2024-12-01"] = obs /\
    obs = [Number.div (Number.of_Z 1) (Number.of_Z 100);
           Number.div (Number.of_Z 2) (Number.of_Z 100)] /\
    exact_mean_hundredths obs = Some 2 /\
    rounded_exact_mean obs (Number.div (Number.of_Z 2) (Number.of_Z 100)) /\
    avgMove r = Number.div (Number.of_Z 1) (Number.of_Z 100) /\
    ~ rounded_exact_mean obs (avgMove r).
Proof.
  exists {| symbol := "AAPL"; nextDate := "2024-12-01";
            avgMove := Number.div (Number.of_Z 1) (Number.of_Z 100);
            lastUpdated := "2024-06-01T00:00:00.000Z" |}.
  exists [Number.div (Number.of_Z 1) (Number.of_Z 100);
          Number.div (Number.of_Z 2) (Number.of_Z 100)].
  assert (Hh : exact_mean_hundredths [Number.div (Number.of_Z 1) (Number.of_Z 100);
                                      Number.div (Number.of_Z 2) (Number.of_Z 100)]
               = Some 2) by (vm_compute; reflexivity).
  split; [vm_compute; reflexivity|]. split; [vm_compute; reflexivity|].
  split; [reflexivity|]. split; [exact Hh|].
  unfold rounded_exact_mean. rewrite Hh. cbn [Z.eqb avgMove]. split; [|split; [reflexivity|]].
  - exists 5764607523034235, (-58). unfold scaled, nearest_even. cbn [fst snd].
    repeat split;
      first [ vm_compute; reflexivity
            | let H := fresh in intros H; vm_compute in H; discriminate H ].
  - intros [M [E [[_ U] [_ Hy]]]].
    replace (Number.div (Number.of_Z 1) (Number.of_Z 100))
      with (S754_finite false 5764607523034235 (-59)) in Hy by (vm_compute; reflexivity).
    unfold normalized in Hy. destruct (M =? 2 ^ 53).
    + injection Hy as Hm _. vm_compute in Hm. discriminate Hm.
    + injection Hy as _ HE. subst E. apply Z.ltb_lt in U. vm_compute in U. discriminate U.
Qed.

(** A run over two symbols: the first fails, the second is stored. *)
Lemma persisted_summary_invariant_witness :
  exists run,
    main JSDate.parseISODate Example.world ["MSFT"; "AAPL"] ∅ = Return run /\
    cache run !! "earnings:AAPL" = Some (Example.summary, 2592000) /\
    exists j sym priceData evs t,
      ["MSFT"; "AAPL"] !! j = Some sym /\ "earnings:AAPL" = "earnings:" +:+ sym /\
      calendar (Example.world j) = Body {| earnings := Some evs |} /\
      priceHistory (Example.world j) = Body (PriceArray priceData) /\
      observations JSDate.parseISODate priceData evs <> [] /\
      avgMove Example.summary
      = round_half_away_2dp (average (observations JSDate.parseISODate priceData evs)) /\
      JSDate.parseISODate (nextDate Example.summary) = Some t /\
      today (Example.world j) < t.
Proof.
  destruct (main_run JSDate.parseISODate Example.world ["MSFT"; "AAPL"] ∅)
    as [run [Hrun _]].
  exists run. split; [exact Hrun|].
  assert (Hlook : cache run !! "earnings:AAPL" = Some (Example.summary, 2592000)).
  { vm_compute in Hrun. injection Hrun as <-. vm_compute. reflexivity. }
  split; [exact Hlook|].
  destruct (persisted_summary_invariant JSDate.parseISODate Example.world
              ["MSFT"; "AAPL"] ∅ run "earnings:AAPL" Example.summary 2592000 Hrun Hlook)
    as [Hold | Hnew]; [|exact Hnew].
  rewrite lookup_empty in Hold. discriminate Hold.
Defined.

(** 1801 symbols: groups of 900, 900 and 1, a pause after the first and
    after the second, none after the third. *)
Lemma main_groups_and_cooldowns_witness :
  exists run,
    main JSDate.parseISODate Example.world Example.universe ∅ = Return run /\
    map (fun e => match e with
                  | Group batch => inl (length batch)
                  | Sleep ms => inr ms
                  end) (trace run)
    = [inl 900%nat; inr 60000; inl 900%nat; inr 60000; inl 1%nat] /\
    map length (groups 900 Example.universe) = [900; 900; 1]%nat /\
    length (List.filter isSleep (trace run)) = 2%nat.
Proof.
  destruct (main_groups_and_cooldowns JSDate.parseISODate Example.world
              Example.universe ∅)
    as [run [Hrun [Htr [_ [_ [_ [_ [_ H1801]]]]]]]].
  exists run. split; [exact Hrun|]. split.
  - rewrite Htr. vm_compute. reflexivity.
  - apply H1801. reflexivity.
Defined.

(** A group of three: the calendar fetch of the first symbol fails, and
    the two others are stored all the same. *)
Lemma symbol_error_is_contained_witness :
  snd (processSymbol_try JSDate.parseISODate (Example.world 0) "MSFT" ∅)
  = Throw FetchError /\
  exists results,
    Promise_all (snd (startBatch JSDate.parseISODate Example.world 0
                        ["MSFT"; "AAPL"; "GOOG"] ∅)) = Return results /\
    results !! 0%nat = Some None /\
    results !! 1%nat = Some (resultOf JSDate.parseISODate (Example.world 1) "AAPL") /\
    resultOf JSDate.parseISODate (Example.world 1) "AAPL" = Some Example.summary.
Proof.
  assert (Hthrow : snd (processSymbol_try JSDate.parseISODate (Example.world 0) "MSFT" ∅)
                   = Throw FetchError) by reflexivity.
  split; [exact Hthrow|].
  destruct (symbol_error_is_contained JSDate.parseISODate Example.world 0
              ["MSFT"; "AAPL"; "GOOG"] ∅ [] ∅)
    as [[results [Hall [_ [Hown Hnull]]]] _].
  exists results. split; [exact Hall|]. split; [|split].
  - apply (Hnull 0%nat "MSFT" ∅ FetchError); [reflexivity | exact Hthrow].
  - apply (Hown 1%nat "AAPL"). reflexivity.
  - vm_compute. reflexivity.
Defined.

(** No event with a full price history, and nine price points with two
    events: [null] both times. *)
Lemma skip_without_events_or_prices_witness :
  processSymbol_try JSDate.parseISODate Example.io_no_events "AAPL" ∅ = (∅, Return None) /\
  length (take 9 Example.history) = 9%nat /\
  processSymbol_try JSDate.parseISODate Example.io_thin "AAPL" ∅ = (∅, Return None).
Proof.
  split; [|split; [reflexivity|]].
  - apply (proj1 (skip_without_events_or_prices JSDate.parseISODate
                    Example.io_no_events "AAPL" ∅)).
    reflexivity.
  - apply (proj2 (skip_without_events_or_prices JSDate.parseISODate
                    Example.io_thin "AAPL" ∅) (take 9 Example.history)).
    + discriminate.
    + reflexivity.
    + vm_compute. lia.
Defined.

(** The key of "AAPL" holds an older summary; the new one takes its place
    with an expiry of 2592000 seconds.  When the write fails the call
    resolves with [null]. *)
Lemma cache_write_contract_witness :
  let old := {| symbol := "AAPL"; nextDate := "2024-03-01";
                avgMove := Number.of_Z 3; lastUpdated := "2024-01-01T00:00:00.000Z" |} in
  let st : Store := {[ "earnings:AAPL" := (old, 86400) ]} in
  exists st',
    processSymbol JSDate.parseISODate Example.io_mean "AAPL" st
    = (st', Return (Some Example.summary)) /\
    st' !! "earnings:AAPL" = Some (Example.summary, 2592000) /\
    snd (processSymbol JSDate.parseISODate Example.io_write_fails "AAPL" st) = Return None.
Proof.
  intros old st.
  destruct (processSymbol JSDate.parseISODate Example.io_mean "AAPL" st) as [st' r] eqn:Hp.
  assert (Hr : r = Return (Some Example.summary)).
  { apply (f_equal snd) in Hp. cbn [snd] in Hp. rewrite <- Hp. vm_compute. reflexivity. }
  subst r. exists st'. split; [reflexivity|].
  destruct (cache_write_contract JSDate.parseISODate Example.io_mean "AAPL" st
              Example.world 0 []) as [Hwrite _].
  destruct (Hwrite st' Example.summary Hp) as [_ [Hlook _]].
  split; [exact Hlook|].
  destruct (cache_write_contract JSDate.parseISODate Example.io_write_fails "AAPL" st
              Example.world 0 []) as [_ [_ [Hfail _]]].
  apply (Hfail false). reflexivity.
Defined.


(* ===================================================================== *)
(** * Further properties of the program *)
(* ===================================================================== *)

(* ===================================================================== *)
(** ** findPriceOnDate: what the result depends on *)
(* ===================================================================== *)

Lemma isoDate_same_day v w :
  v / JSDate.msPerDay = w / JSDate.msPerDay -> JSDate.isoDate v = JSDate.isoDate w.
Proof. intros H. unfold JSDate.isoDate. rewrite H. reflexivity. Qed.

Lemma dateBack_same_day v w i :
  v / JSDate.msPerDay = w / JSDate.msPerDay -> dateBack v i = dateBack w i.
Proof.
  intros H. unfold dateBack. apply isoDate_same_day.
  replace (v - i * JSDate.msPerDay) with (v + (- i) * JSDate.msPerDay) by lia.
  replace (w - i * JSDate.msPerDay) with (w + (- i) * JSDate.msPerDay) by lia.
  rewrite !Z.div_add by (unfold JSDate.msPerDay; lia). rewrite H. reflexivity.
Qed.

Lemma located_same_day priceData v w lo hi r :
  v / JSDate.msPerDay = w / JSDate.msPerDay ->
  located priceData v lo hi r -> located priceData w lo hi r.
Proof.
  intros H Hloc. inversion Hloc as [k p Hk Hbefore Hp Heq | Hnone Heq]; subst.
  - apply located_hit with (k := k); [exact Hk | |].
    + intros j Hj. rewrite <- (dateBack_same_day v w j H). apply Hbefore. exact Hj.
    + rewrite <- (dateBack_same_day v w k H). exact Hp.
  - apply located_miss. intros j Hj.
    rewrite <- (dateBack_same_day v w j H). apply Hnone. exact Hj.
Qed.

(** X1.  Only the UTC day of the target counts: two targets on the same
    day (both with their look-back within the range of [Date]) give the
    same result, whatever their time of day. *)
Theorem findPriceOnDate_day_only priceData v w :
  validTime v -> validTime (v - 4 * JSDate.msPerDay) ->
  validTime w -> validTime (w - 4 * JSDate.msPerDay) ->
  v / JSDate.msPerDay = w / JSDate.msPerDay ->
  findPriceOnDate priceData (Some v) = findPriceOnDate priceData (Some w).
Proof.
  intros Hv Hv4 Hw Hw4 Hday.
  destruct (findPriceOnDate_located priceData v Hv Hv4) as [r [Hr Hloc]].
  destruct (findPriceOnDate_located priceData w Hw Hw4) as [r' [Hr' Hloc']].
  rewrite Hr, Hr'. f_equal.
  apply (located_unique priceData w 0 5); [|exact Hloc'].
  apply (located_same_day priceData v w); assumption.
Qed.

Lemma unique_by_key {A B} (f : A -> B) (l : list A) a b :
  NoDup (map f l) -> In a l -> In b l -> f a = f b -> a = b.
Proof.
  induction l as [|x l IH]; intros Hnd Ha Hb Hf; [destruct Ha|].
  cbn [map] in Hnd. apply NoDup_cons in Hnd as [Hx Hnd].
  destruct Ha as [<- | Ha]; destruct Hb as [<- | Hb]; auto.
  - exfalso. apply Hx. rewrite Hf. apply list_elem_of_In, in_map. exact Hb.
  - exfalso. apply Hx. rewrite <- Hf. apply list_elem_of_In, in_map. exact Ha.
Qed.

Lemma firstOn_In priceData s p :
  firstOn priceData s = Some p -> In p priceData /\ PricePoint.date p = s.
Proof.
  unfold firstOn. intros H. apply find_some in H as [Hin Heq].
  apply String.eqb_eq in Heq. auto.
Qed.

Lemma firstOn_permutation priceData priceData' s :
  NoDup (map PricePoint.date priceData) ->
  Permutation priceData priceData' ->
  firstOn priceData s = firstOn priceData' s.
Proof.
  intros Hnd Hperm.
  destruct (firstOn priceData s) as [p|] eqn:Hp;
    destruct (firstOn priceData' s) as [q|] eqn:Hq; try reflexivity.
  - apply firstOn_In in Hp as [Hp Hps]. apply firstOn_In in Hq as [Hq Hqs].
    f_equal. apply (unique_by_key PricePoint.date priceData); auto; [|congruence].
    apply (Permutation_in q (Permutation_sym Hperm)). exact Hq.
  - exfalso. apply firstOn_None in Hq. apply Hq.
    apply firstOn_In in Hp as [Hp Hps]. exists p. split; [|exact Hps].
    apply (Permutation_in p Hperm). exact Hp.
  - exfalso. apply firstOn_None in Hp. apply Hp.
    apply firstOn_In in Hq as [Hq Hqs]. exists q. split; [|exact Hqs].
    apply (Permutation_in q (Permutation_sym Hperm)). exact Hq.
Qed.

Lemma findPriceOnDate_loop_ext priceData priceData' targetDate :
  (forall s, firstOn priceData s = firstOn priceData' s) ->
  forall n i, findPriceOnDate_loop n i priceData targetDate
              = findPriceOnDate_loop n i priceData' targetDate.
Proof.
  intros Hext. induction n as [|n IH]; intros i; [reflexivity|].
  cbn [findPriceOnDate_loop].
  destruct (JSDate.toISODate _) as [dateString|err]; [|reflexivity].
  cbn [obind]. fold (firstOn priceData dateString). fold (firstOn priceData' dateString).
  rewrite Hext, IH. reflexivity.
Qed.

(** X2.  The series need not be sorted: when no two points share a
    date, every reordering of the series gives the same result, for
    every target, valid or not. *)
Theorem findPriceOnDate_any_order priceData priceData' targetDate :
  NoDup (map PricePoint.date priceData) ->
  Permutation priceData priceData' ->
  findPriceOnDate priceData targetDate = findPriceOnDate priceData' targetDate.
Proof.
  intros Hnd Hperm. unfold findPriceOnDate. apply findPriceOnDate_loop_ext.
  intros s. apply firstOn_permutation; assumption.
Qed.

(* ===================================================================== *)
(** ** The sign of a move and of a mean *)
(* ===================================================================== *)

Lemma sign_binary_round_aux m e l :
  sign_bit (binary_round_aux Number.prec Number.emax false m e l) = false.
Proof.
  unfold binary_round_aux.
  destruct (shr_fexp Number.prec Number.emax m e l) as [mrs' e'].
  destruct (shr_fexp _ _ _ e' loc_Exact) as [mrs'' e''].
  destruct (shr_m mrs'') as [|q|q]; [reflexivity | | reflexivity].
  destruct (e'' <=? Number.emax - Number.prec)%Z; reflexivity.
Qed.

Lemma sign_binary_round m e :
  sign_bit (binary_round Number.prec Number.emax false m e) = false.
Proof.
  unfold binary_round. destruct (shl_align _ _ _) as [mz ez]. apply sign_binary_round_aux.
Qed.

Lemma sign_of_nat n : sign_bit (Number.of_nat n) = false.
Proof.
  unfold Number.of_nat, Number.of_Z, binary_normalize.
  destruct (Z.of_nat n) as [|p|p] eqn:Hn; [reflexivity | apply sign_binary_round | lia].
Qed.

Lemma sign_abs x : sign_bit (Number.abs x) = false.
Proof. destruct x; reflexivity. Qed.

Lemma sign_mul x y :
  sign_bit x = false -> sign_bit y = false -> sign_bit (Number.mul x y) = false.
Proof.
  destruct x as [[|]|[|]| |[|] mx ex]; destruct y as [[|]|[|]| |[|] my ey];
    cbn [sign_bit]; try discriminate; intros _ _; try reflexivity.
  apply sign_binary_round_aux.
Qed.

Lemma sign_div x y :
  sign_bit x = false -> sign_bit y = false -> sign_bit (Number.div x y) = false.
Proof.
  destruct x as [[|]|[|]| |[|] mx ex]; destruct y as [[|]|[|]| |[|] my ey];
    cbn [sign_bit]; try discriminate; intros _ _; try reflexivity.
  unfold Number.div, SFdiv.
  destruct (SFdiv_core_binary _ _ _ _ _ _) as [[mz ez] lz]. apply sign_binary_round_aux.
Qed.

Lemma sign_add x y :
  sign_bit x = false -> sign_bit y = false -> sign_bit (Number.add x y) = false.
Proof.
  destruct x as [[|]|[|]| |[|] mx ex]; destruct y as [[|]|[|]| |[|] my ey];
    cbn [sign_bit]; try discriminate; intros _ _; try reflexivity.
  unfold Number.add, SFadd. cbn [cond_Zopp Z.add binary_normalize].
  apply sign_binary_round.
Qed.

Lemma sign_fold_add moves : forall acc,
  sign_bit acc = false -> Forall (fun m => sign_bit m = false) moves ->
  sign_bit (fold_left Number.add moves acc) = false.
Proof.
  induction moves as [|m moves IH]; intros acc Hacc Hall; [exact Hacc|].
  apply Forall_cons in Hall as [Hm Hall]. cbn [fold_left].
  apply IH; [apply sign_add; assumption | exact Hall].
Qed.

Lemma sign_average moves :
  Forall (fun m => sign_bit m = false) moves -> sign_bit (average moves) = false.
Proof.
  intros Hall. unfold average. apply sign_div; [|apply sign_of_nat].
  apply sign_fold_add; [reflexivity | exact Hall].
Qed.

Lemma sign_parse_hundredths n : sign_bit (Number.parse_hundredths false n) = false.
Proof.
  destruct n as [|p|p]; try reflexivity.
  unfold Number.parse_hundredths, SFdiv.
  destruct (SFdiv_core_binary _ _ _ _ _ _) as [[mz ez] lz]. apply sign_binary_round_aux.
Qed.

Lemma sign_roundFixed2 x : sign_bit x = false -> sign_bit (Number.roundFixed2 x) = false.
Proof.
  destruct x as [s|s| |s m e]; cbn [sign_bit Number.roundFixed2]; intros Hs; auto.
  subst s. destruct (Number.magnitude m e) as [num den].
  destruct (10 ^ 21 * den <=? num); [reflexivity | apply sign_parse_hundredths].
Qed.

Lemma sign_percentMove b a : sign_bit (percentMove b a) = false.
Proof. unfold percentMove. apply sign_mul; [apply sign_abs | reflexivity]. Qed.

(** A price compared with itself. *)
Lemma sub_self s m e : Number.sub (S754_finite s m e) (S754_finite s m e) = S754_zero false.
Proof.
  unfold Number.sub, SFsub. rewrite Z.sub_diag. reflexivity.
Qed.

Lemma percentMove_self m e :
  percentMove (S754_finite false m e) (S754_finite false m e) = S754_zero false.
Proof. unfold percentMove. rewrite sub_self. reflexivity. Qed.

Section More.

Variable Date_parse : string -> JSDate.t.

Lemma earningMove_sign priceData e m :
  earningMove Date_parse priceData e = Return (Some m) -> sign_bit m = false.
Proof.
  unfold earningMove.
  destruct (findPriceOnDate priceData _) as [[b|]|err]; cbn [obind]; try discriminate;
    destruct (findPriceOnDate priceData _) as [[a|]|err']; cbn [obind]; try discriminate.
  destruct (_ && _ && _); [|discriminate].
  intros [= <-]. apply sign_percentMove.
Qed.

Lemma observations_sign priceData evs :
  Forall (fun m => sign_bit m = false) (observations Date_parse priceData evs).
Proof.
  induction evs as [|e evs IH]; [constructor|].
  rewrite observations_cons.
  destruct (earningMove Date_parse priceData e) as [[m|]|err] eqn:He; try exact IH.
  constructor; [eapply earningMove_sign; eauto | exact IH].
Qed.

(** X5.  No move is negative: the sign bit of every observation is
    clear (it is [+0], a positive number, [+Infinity] or [NaN]). *)
Theorem observations_not_negative priceData evs :
  Forall (fun m => sign_bit m = false) (observations Date_parse priceData evs).
Proof.
  induction evs as [|e evs IH]; [constructor|].
  rewrite observations_cons.
  destruct (earningMove Date_parse priceData e) as [[m|]|err] eqn:He; try exact IH.
  constructor; [|exact IH].
  apply (earningMove_sign priceData e m He).
Qed.

(** X6.  The [avgMove] of a summary that [processSymbol] returns is
    never negative: its sign bit is clear and [0 > avgMove] is false. *)
Theorem avgMove_not_negative io sym st st' r :
  processSymbol Date_parse io sym st = (st', Return (Some r)) ->
  sign_bit (avgMove r) = false /\ Number.gt (Number.of_Z 0) (avgMove r) = false.
Proof.
  intros H. apply processSymbol_summary in H as [[evs [priceData [next Hb]]] _].
  destruct Hb as [_ [_ [_ [_ [_ [_ [_ ->]]]]]]]. cbn [avgMove].
  assert (Hs : sign_bit (Number.roundFixed2 (average (observations Date_parse priceData evs)))
               = false)
    by (apply sign_roundFixed2, sign_average, observations_sign).
  split; [exact Hs|].
  destruct (Number.roundFixed2 _) as [s|s| |s m e]; cbn [sign_bit] in Hs;
    try subst s; reflexivity.
Qed.

(** X4.  An announcement with no price on its day and none the day
    after, but one the day before: the search for the price after falls
    back on the very point the search for the price before finds, and the
    event pushes a move of exactly 0 (for a positive, finite close). *)
Theorem earningMove_stale_after priceData e d p m ex :
  Date_parse (Earning.date e) = Some d ->
  validTime (d - 5 * JSDate.msPerDay) -> validTime (d + JSDate.msPerDay) ->
  firstOn priceData (JSDate.isoDate (d - JSDate.msPerDay)) = Some p ->
  PricePoint.close p = S754_finite false m ex ->
  ~ has_date priceData (JSDate.isoDate d) ->
  ~ has_date priceData (JSDate.isoDate (d + JSDate.msPerDay)) ->
  earningMove Date_parse priceData e = Return (Some (S754_zero false)).
Proof.
  intros Hd Hlo Hhi Hp Hclose Hday Hnext.
  assert (Hb1 : validTime (d - JSDate.msPerDay)) by time_arith.
  assert (Hbefore : findPriceOnDate priceData (Some (d - JSDate.msPerDay))
                    = Return (Some (S754_finite false m ex))).
  { destruct (findPriceOnDate_located priceData (d - JSDate.msPerDay)) as [r [Hr Hloc]];
      [exact Hb1 | time_arith |].
    rewrite Hr. f_equal.
    apply (located_unique priceData (d - JSDate.msPerDay) 0 5); [exact Hloc|].
    replace (S754_finite false m ex) with (Number.parseFloat (PricePoint.close p))
      by (rewrite Hclose; reflexivity).
    apply located_hit with (k := 0); [lia | intros j Hj; lia |].
    unfold dateBack. rewrite <- Hp. f_equal. f_equal. lia. }
  assert (Hafter : findPriceOnDate priceData (Some (d + JSDate.msPerDay))
                   = Return (Some (S754_finite false m ex))).
  { destruct (findPriceOnDate_located priceData (d + JSDate.msPerDay)) as [r [Hr Hloc]];
      [exact Hhi | time_arith |].
    rewrite Hr. f_equal.
    apply (located_unique priceData (d + JSDate.msPerDay) 0 5); [exact Hloc|].
    replace (S754_finite false m ex) with (Number.parseFloat (PricePoint.close p))
      by (rewrite Hclose; reflexivity).
    apply located_hit with (k := 2); [lia | |].
    - intros j Hj. assert (Hcases : j = 0 \/ j = 1) by lia. unfold dateBack.
      destruct Hcases as [-> | ->].
      + replace (d + JSDate.msPerDay - 0 * JSDate.msPerDay) with (d + JSDate.msPerDay) by lia.
        exact Hnext.
      + replace (d + JSDate.msPerDay - 1 * JSDate.msPerDay) with d by lia. exact Hday.
    - unfold dateBack. rewrite <- Hp. f_equal. f_equal. lia. }
  rewrite (earningMove_eval Date_parse priceData e d _ _ Hd Hb1 Hhi Hbefore Hafter).
  cbn [Number.truthy]. change (Number.gt (S754_finite false m ex) (Number.of_Z 0)) with true.
  cbn [andb]. unfold percentMove_spec. rewrite sub_self. reflexivity.
Qed.

Lemma collectMoves_throws priceData evs : forall moves e err,
  In e evs -> earningMove Date_parse priceData e = Throw err ->
  exists err', collectMoves Date_parse priceData evs moves = Throw err'.
Proof.
  induction evs as [|a evs IH]; intros moves e err Hin He; [destruct Hin|].
  cbn [collectMoves].
  destruct (earningMove Date_parse priceData a) as [m|err0] eqn:Ha; cbn [obind]; [|eauto].
  destruct Hin as [-> | Hin]; [congruence|]. eapply IH; eauto.
Qed.

Lemma collectMoves_all_return priceData evs moves res :
  collectMoves Date_parse priceData evs moves = Return res ->
  forall e, In e evs -> exists m, earningMove Date_parse priceData e = Return m.
Proof.
  intros Hc e Hin.
  destruct (earningMove Date_parse priceData e) as [m|err] eqn:He; [eauto|].
  destruct (collectMoves_throws priceData evs moves e err Hin He) as [err' Ht]. congruence.
Qed.

(** X7.  One event whose date text does not read as a date voids the
    whole symbol: [processSymbol] resolves with [null] and leaves the
    cache as it was, whatever the other events and the prices are; with
    ten price points or more this is an exception caught, not a skip. *)
Theorem unreadable_date_voids_symbol io sym st evs e :
  calendar io = Body {| earnings := Some evs |} ->
  In e evs ->
  Date_parse (Earning.date e) = None ->
  processSymbol Date_parse io sym st = (st, Return None) /\
  (forall priceData,
     priceHistory io = Body (PriceArray priceData) -> (10 <= length priceData)%nat ->
     exists err, processSymbol_try Date_parse io sym st = (st, Throw err)).
Proof.
  intros Hcal Hin Hd. split.
  - unfold processSymbol.
    destruct (processSymbol_try_cases Date_parse io sym st)
      as [Hc | [[err Hc] | [r [Hb _]]]]; try (rewrite Hc; reflexivity).
    exfalso. destruct Hb as [evs' [priceData [next [Hcal' [_ [_ [Hmoves _]]]]]]].
    rewrite Hcal in Hcal'. injection Hcal' as <-.
    destruct (collectMoves_all_return _ _ _ _ Hmoves e Hin) as [m Hm].
    rewrite (earningMove_invalid_date Date_parse priceData e Hd) in Hm. discriminate.
  - intros priceData Hpr Hlen. unfold processSymbol_try. rewrite Hcal. cbn [earnings].
    destruct evs as [|a evs]; [destruct Hin|]. rewrite Hpr.
    destruct (Nat.ltb_spec (length priceData) 10); [lia|].
    destruct (collectMoves_throws priceData (a :: evs) [] e RangeError Hin
                (earningMove_invalid_date Date_parse priceData e Hd)) as [err' ->].
    eauto.
Qed.

(** X8.  [processSymbol] returns a summary exactly when the calendar has
    events, the history has ten points or more, no event throws, some
    event gives a move, some event is after today and its date text is
    not empty, and the cache accepts the write; the summary and the cache
    are then the ones shown. *)
Theorem processSymbol_succeeds_iff io sym st st' r :
  processSymbol Date_parse io sym st = (st', Return (Some r)) <->
  exists evs priceData next,
    calendar io = Body {| earnings := Some evs |} /\
    priceHistory io = Body (PriceArray priceData) /\
    (10 <= length priceData)%nat /\
    (forall e, In e evs -> exists m, earningMove Date_parse priceData e = Return m) /\
    observations Date_parse priceData evs <> [] /\
    nextDateOf Date_parse (today io) evs = Some next /\
    next <> "" /\
    redisReply io = SetOk /\
    r = {| symbol := sym; nextDate := next;
           avgMove := Number.roundFixed2 (average (observations Date_parse priceData evs));
           lastUpdated := stamp io |} /\
    st' = <["earnings:" +:+ sym := (r, 2592000)]> st.
Proof.
  split.
  - intros H. apply processSymbol_summary in H as [[evs [priceData [next Hb]]] [Hok ->]].
    destruct Hb as [Hcal [Hpr [Hlen [Hmoves [Hobs [Hnext [Hne ->]]]]]]].
    exists evs, priceData, next. repeat split; auto.
    eapply collectMoves_all_return; eauto.
  - intros [evs [priceData [next [Hcal [Hpr [Hlen [Hret [Hobs [Hnext [Hne [Hok [-> ->]]]]]]]]]]]].
    unfold processSymbol, processSymbol_try. rewrite Hcal. cbn [earnings].
    destruct evs as [|a evs]; [exfalso; apply Hobs; reflexivity|].
    rewrite Hpr. destruct (Nat.ltb_spec (length priceData) 10); [lia|].
    rewrite (collectMoves_returns Date_parse priceData (a :: evs) [] Hret). cbn [app].
    destruct (Nat.eqb_spec (length (observations Date_parse priceData (a :: evs))) 0)
      as [Hz|_].
    { exfalso. apply Hobs. destruct (observations _ _ _); [reflexivity | discriminate]. }
    rewrite Hnext. destruct next as [|c next]; [congruence|].
    unfold redis_set. rewrite Hok. reflexivity.
Qed.

(** X9.  The [nextDate] of a returned summary is, letter for letter,
    the date text of the first event of the calendar, in the calendar's
    order, whose date reads as a time strictly after [today]; no event
    before it in the calendar is after [today]. *)
Theorem nextDate_first_after_today io sym st st' r :
  processSymbol Date_parse io sym st = (st', Return (Some r)) ->
  exists pre e post,
    calendar io = Body {| earnings := Some (pre ++ e :: post)%list |} /\
    nextDate r = Earning.date e /\
    JSDate.gt (Date_parse (Earning.date e)) (Some (today io)) = true /\
    (forall q, In q pre ->
       JSDate.gt (Date_parse (Earning.date q)) (Some (today io)) = false).
Proof.
  intros H. apply processSymbol_summary in H as [[evs [priceData [next Hb]]] _].
  destruct Hb as [Hcal [_ [_ [_ [_ [Hnext [_ ->]]]]]]].
  apply nextDateOf_first in Hnext as [pre [e [post [-> [He [Hf Hpre]]]]]].
  exists pre, e, post. cbn [nextDate]. auto.
Qed.

(** X10.  When the calendar lists its events by dates that never go
    back, the [nextDate] of a returned summary is the earliest date after
    [today]: no event after [today] is dated before it. *)
Theorem nextDate_earliest_in_date_order io sym st st' r evs :
  processSymbol Date_parse io sym st = (st', Return (Some r)) ->
  calendar io = Body {| earnings := Some evs |} ->
  inDateOrder Date_parse evs ->
  forall e, In e evs ->
    JSDate.gt (Date_parse (Earning.date e)) (Some (today io)) = true ->
    JSDate.gt (Date_parse (nextDate r)) (Date_parse (Earning.date e)) = false.
Proof.
  intros H Hcal Hsorted e Hin Hfut.
  apply processSymbol_summary in H as [[evs' [priceData [next Hb]]] _].
  destruct Hb as [Hcal' [_ [_ [_ [_ [Hnext [_ ->]]]]]]].
  rewrite Hcal in Hcal'. injection Hcal' as <-. cbn [nextDate].
  eapply nextDateOf_earliest_when_sorted; eauto.
Qed.

(** X11.  When no event of the calendar is dated strictly after
    [today], [processSymbol] resolves with [null] and leaves the cache as
    it was, whatever the prices and the cache's answer are. *)
Theorem no_future_event_no_summary io sym st evs :
  calendar io = Body {| earnings := Some evs |} ->
  (forall e, In e evs ->
     JSDate.gt (Date_parse (Earning.date e)) (Some (today io)) = false) ->
  processSymbol Date_parse io sym st = (st, Return None).
Proof.
  intros Hcal Hpast. unfold processSymbol.
  destruct (processSymbol_try_cases Date_parse io sym st)
    as [Hc | [[err Hc] | [r [Hb _]]]]; try (rewrite Hc; reflexivity).
  exfalso. destruct Hb as [evs' [priceData [next [Hcal' [_ [_ [_ [_ [Hnext _]]]]]]]]].
  rewrite Hcal in Hcal'. injection Hcal' as <-.
  apply nextDateOf_first in Hnext as [pre [e [post [-> [_ [Hf _]]]]]].
  rewrite Hpast in Hf; [discriminate|]. apply in_or_app. right. left. reflexivity.
Qed.

Lemma processSymbol_other_keys io sym st key :
  key <> "earnings:" +:+ sym ->
  fst (processSymbol Date_parse io sym st) !! key = st !! key.
Proof.
  intros Hne.
  destruct (processSymbol_store Date_parse io sym st) as [-> | [r [_ ->]]]; [reflexivity|].
  apply lookup_insert_ne. congruence.
Qed.

Lemma processSymbol_null_store io sym st :
  redisReply io <> SetFailed true ->
  snd (processSymbol Date_parse io sym st) = Return None ->
  fst (processSymbol Date_parse io sym st) = st.
Proof.
  unfold processSymbol. intros Hreply.
  destruct (processSymbol_try_cases Date_parse io sym st)
    as [Hc | [[err Hc] | [r [_ Hc]]]]; rewrite Hc; try reflexivity.
  destruct (redisReply io) as [|[|]]; cbn; try reflexivity; [discriminate | congruence].
Qed.

(** X12.  A call of [processSymbol] never changes the entry of another
    key than the one of its symbol, however it ends; and a call that
    resolves with [null] leaves the whole cache as it was, unless the
    cache wrote the value and reported a failure. *)
Theorem processSymbol_cache_locality io sym st :
  (forall key, key <> "earnings:" +:+ sym ->
     fst (processSymbol Date_parse io sym st) !! key = st !! key) /\
  (redisReply io <> SetFailed true ->
   snd (processSymbol Date_parse io sym st) = Return None ->
   fst (processSymbol Date_parse io sym st) = st).
Proof.
  split.
  - intros key Hne.
    destruct (processSymbol_store Date_parse io sym st) as [-> | [r [_ ->]]]; [reflexivity|].
    apply lookup_insert_ne. congruence.
  - intros Hreply Hnull.
    destruct (processSymbol Date_parse io sym st) as [st' res] eqn:Hp. cbn [fst snd] in *.
    subst res. unfold processSymbol in Hp.
    destruct (processSymbol_try_cases Date_parse io sym st)
      as [Hc | [[err Hc] | [r [_ Hc]]]]; rewrite Hc in Hp.
    + injection Hp as <-. reflexivity.
    + injection Hp as <-. reflexivity.
    + destruct (redisReply io) as [|[|]]; cbn in Hp;
        [discriminate Hp | congruence | injection Hp as <-; reflexivity].
Qed.

End More.

Section MoreMain.

Variable Date_parse : string -> JSDate.t.

Lemma startBatch_app world l1 : forall l2 i st,
  startBatch Date_parse world i (l1 ++ l2)%list st =
    (fst (startBatch Date_parse world (i + length l1)%nat l2
            (fst (startBatch Date_parse world i l1 st))),
     (snd (startBatch Date_parse world i l1 st)
      ++ snd (startBatch Date_parse world (i + length l1)%nat l2
                (fst (startBatch Date_parse world i l1 st))))%list).
Proof.
  induction l1 as [|sym l1 IH]; intros l2 i st.
  - cbn. rewrite Nat.add_0_r. destruct (startBatch Date_parse world i l2 st). reflexivity.
  - cbn [app startBatch length].
    destruct (processSymbol Date_parse (world i) sym st) as [st1 p].
    rewrite IH. replace (S i + length l1)%nat with (i + S (length l1))%nat by lia.
    destruct (startBatch Date_parse world (S i) l1 st1) as [st2 ps]. reflexivity.
Qed.

(** The cache after the loop is the cache after one pass over the
    symbols that were left. *)
Lemma main_loop_cache world SYMBOLS : forall m k run run',
  (groupCount 900 (length SYMBOLS) - k = m)%nat ->
  main_loop Date_parse world SYMBOLS (k * 900) run = Return run' ->
  cache run' = fst (startBatch Date_parse world (k * 900) (drop (k * 900) SYMBOLS) (cache run)).
Proof.
  induction m as [|m IH]; intros k run run' Hm; rewrite main_loop_step.
  - destruct (lt_dec (k * 900) (length SYMBOLS)) as [Hlt|Hge].
    + apply lt_groupCount in Hlt. lia.
    + intros [= <-]. rewrite drop_ge by lia. reflexivity.
  - destruct (lt_dec (k * 900) (length SYMBOLS)) as [Hlt|Hge].
    2:{ exfalso. apply Hge. apply lt_groupCount. lia. }
    cbv zeta. rewrite startBatch_results, Promise_all_resolved.
    assert (Hbatch : slice SYMBOLS (k * 900) (k * 900 + BATCH_SIZE) = groupAt SYMBOLS k).
    { unfold slice, groupAt, BATCH_SIZE. f_equal. lia. }
    rewrite Hbatch. unfold BATCH_SIZE.
    replace (k * 900 + 900)%nat with ((S k) * 900)%nat by lia.
    intros Hrun. apply IH in Hrun; [|lia]. cbn [cache] in Hrun. rewrite Hrun.
    rewrite <- (take_drop 900 (drop (k * 900) SYMBOLS)) at 1.
    fold (groupAt SYMBOLS k). rewrite startBatch_app. cbn [fst].
    rewrite drop_drop. replace (k * 900 + 900)%nat with (S k * 900)%nat by lia.
    destruct (Nat.le_gt_cases (length SYMBOLS) (S k * 900)) as [Hle|Hgt].
    + rewrite (drop_ge SYMBOLS (S k * 900)) by exact Hle. reflexivity.
    + replace (k * 900 + length (groupAt SYMBOLS k))%nat with (S k * 900)%nat;
        [reflexivity|].
      unfold groupAt. rewrite length_take, length_drop. lia.
Qed.

Lemma main_cache world SYMBOLS st run :
  main Date_parse world SYMBOLS st = Return run ->
  cache run = fst (startBatch Date_parse world 0 SYMBOLS st).
Proof.
  unfold main. intros H.
  apply (main_loop_cache world SYMBOLS (groupCount 900 (length SYMBOLS)) 0) in H; [|lia].
  exact H.
Qed.

Lemma startBatch_other_keys world key batch : forall i st,
  (forall sym, In sym batch -> key <> "earnings:" +:+ sym) ->
  fst (startBatch Date_parse world i batch st) !! key = st !! key.
Proof.
  induction batch as [|sym rest IH]; intros i st Hkey; [reflexivity|].
  cbn [startBatch].
  pose proof (processSymbol_other_keys Date_parse (world i) sym st key
                (Hkey sym (or_introl eq_refl))) as Hloc.
  destruct (processSymbol Date_parse (world i) sym st) as [st1 p]. cbn [fst] in Hloc.
  specialize (IH (S i) st1 (fun s Hs => Hkey s (or_intror Hs))).
  destruct (startBatch Date_parse world (S i) rest st1) as [st2 ps]. cbn [fst] in *.
  congruence.
Qed.

Lemma key_injective a b : "earnings:" +:+ a = "earnings:" +:+ b -> a = b.
Proof. intros H. injection H as H. exact H. Qed.

Lemma startBatch_own_key world batch : forall i st j sym,
  NoDup batch -> batch !! j = Some sym ->
  (forall r, resultOf Date_parse (world (i + j)%nat) sym = Some r ->
     fst (startBatch Date_parse world i batch st) !! ("earnings:" +:+ sym)
     = Some (r, 2592000)) /\
  (resultOf Date_parse (world (i + j)%nat) sym = None ->
   redisReply (world (i + j)%nat) <> SetFailed true ->
   fst (startBatch Date_parse world i batch st) !! ("earnings:" +:+ sym)
   = st !! ("earnings:" +:+ sym)).
Proof.
  induction batch as [|s rest IH]; intros i st j sym Hnd Hj; [discriminate|].
  apply NoDup_cons in Hnd as [Hs Hnd]. cbn [startBatch].
  destruct j as [|j]; cbn in Hj.
  - injection Hj as ->. rewrite Nat.add_0_r.
    pose proof (processSymbol_result Date_parse (world i) sym st) as Hres.
    pose proof (processSymbol_null_store Date_parse (world i) sym st) as Hnull.
    destruct (processSymbol Date_parse (world i) sym st) as [st1 p] eqn:Hp.
    cbn [fst snd] in *. subst p.
    pose proof (startBatch_other_keys world ("earnings:" +:+ sym) rest (S i) st1) as Hrest.
    destruct (startBatch Date_parse world (S i) rest st1) as [st2 ps]. cbn [fst] in *.
    assert (Hkeys : forall s, In s rest -> "earnings:" +:+ sym <> "earnings:" +:+ s).
    { intros s' Hin Heq. apply key_injective in Heq. subst s'.
      apply Hs. apply list_elem_of_In. exact Hin. }
    rewrite (Hrest Hkeys). split.
    + intros r Hr. rewrite Hr in Hp.
      apply processSymbol_summary in Hp as [_ [_ ->]]. apply lookup_insert_eq.
    + intros Hr Hreply. rewrite Hr in Hnull. rewrite (Hnull Hreply eq_refl). reflexivity.
  - pose proof (processSymbol_other_keys Date_parse (world i) s st
                  ("earnings:" +:+ sym)) as Hloc.
    destruct (processSymbol Date_parse (world i) s st) as [st1 p]. cbn [fst] in Hloc.
    specialize (IH (S i) st1 j sym Hnd Hj).
    replace (S i + j)%nat with (i + S j)%nat in IH by lia.
    destruct (startBatch Date_parse world (S i) rest st1) as [st2 ps]. cbn [fst] in *.
    assert (Hne : "earnings:" +:+ sym <> "earnings:" +:+ s).
    { intros Heq. apply key_injective in Heq. subst s.
      apply Hs. apply list_elem_of_lookup. eauto. }
    rewrite <- (Hloc Hne). exact IH.
Qed.

(** X14.  A run of [main] changes no entry of the cache but those under
    the keys of the symbols of its universe. *)
Theorem main_touches_only_its_keys world SYMBOLS st run key :
  main Date_parse world SYMBOLS st = Return run ->
  (forall sym, In sym SYMBOLS -> key <> "earnings:" +:+ sym) ->
  cache run !! key = st !! key.
Proof.
  intros Hmain Hkey. rewrite (main_cache world SYMBOLS st run Hmain).
  apply startBatch_other_keys. exact Hkey.
Qed.

(** X15.  For a universe without repeated symbols, the cache after the
    run holds, under the key of every symbol that gave a summary, that
    summary with an expiry of 2592000 seconds; and under the key of a
    symbol that gave [null] what it held before the run (unless the
    cache wrote and reported a failure). *)
Theorem main_final_cache world SYMBOLS st run j sym :
  main Date_parse world SYMBOLS st = Return run ->
  NoDup SYMBOLS ->
  SYMBOLS !! j = Some sym ->
  (forall r, allResults Date_parse world SYMBOLS !! j = Some (Some r) ->
     cache run !! ("earnings:" +:+ sym) = Some (r, 2592000)) /\
  (allResults Date_parse world SYMBOLS !! j = Some None ->
   redisReply (world j) <> SetFailed true ->
   cache run !! ("earnings:" +:+ sym) = st !! ("earnings:" +:+ sym)).
Proof.
  intros Hmain Hnd Hj. rewrite (main_cache world SYMBOLS st run Hmain).
  destruct (startBatch_own_key world SYMBOLS 0 st j sym Hnd Hj) as [Hsome Hnone].
  cbn [Nat.add] in *. unfold allResults. rewrite list_lookup_imap, Hj. cbn.
  split.
  - intros r [= Hr]. apply Hsome. exact Hr.
  - intros [= Hr]. apply Hnone. exact Hr.
Qed.

(** X16.  The script ends with [process.exit(1)], nothing processed and
    the cache as it was, unless the request for the symbol list gave a
    status of 200 and a body that reads as an array of records: a network
    error, any other status (a 404 too, although [fetchJSON] resolves on
    it) and any other body end the process.  Otherwise [main] runs to
    its end over the codes of the records, in their order. *)
Theorem script_exit_or_complete (JSON_parse : string -> option SymbolListBody)
    (http : HttpResult) world st :
  (forall chunks stocks,
     http = Response 200 chunks ->
     JSON_parse (received chunks) = Some (StockList stocks) ->
     exists run,
       script Date_parse (fetchJSON JSON_parse http) world st = Completed run /\
       main Date_parse world (map Code stocks) st = Return run /\
       processed run = length stocks) /\
  ((forall chunks stocks,
      http = Response 200 chunks ->
      JSON_parse (received chunks) <> Some (StockList stocks)) ->
   script Date_parse (fetchJSON JSON_parse http) world st = Exit 1 st).
Proof.
  split.
  - intros chunks stocks -> Hparse.
    destruct (main_run Date_parse world (map Code stocks) st) as [run [Hrun [_ [Hpr _]]]].
    exists run. unfold script, fetchJSON. cbn [Z.eqb Pos.eqb]. rewrite Hparse.
    cbn [getAllSymbols]. rewrite Hrun. rewrite length_map in Hpr. auto.
  - intros Hnot. unfold script, fetchJSON.
    destruct http as [|statusCode chunks]; [reflexivity|].
    destruct (Z.eqb_spec statusCode 200) as [-> | _].
    + destruct (JSON_parse (received chunks)) as [[|stocks]|] eqn:Hparse; try reflexivity.
      exfalso. exact (Hnot chunks stocks eq_refl Hparse).
    + destruct (statusCode =? 404); reflexivity.
Qed.

End MoreMain.

Lemma firstOn_filter (g : PricePoint.t -> bool) priceData s :
  (forall p, PricePoint.date p = s -> g p = true) ->
  firstOn (List.filter g priceData) s = firstOn priceData s.
Proof.
  intros Hg. unfold firstOn. induction priceData as [|p l IH]; [reflexivity|].
  cbn [List.filter find].
  destruct (String.eqb_spec (PricePoint.date p) s) as [Heq|Hne].
  - rewrite (Hg p Heq). cbn [find]. rewrite Heq, String.eqb_refl. reflexivity.
  - destruct (g p); [|exact IH]. cbn [find].
    destruct (String.eqb_spec (PricePoint.date p) s); [contradiction | exact IH].
Qed.

Lemma located_ext priceData priceData' v lo hi r :
  (forall k, lo <= k < hi ->
     firstOn priceData (dateBack v k) = firstOn priceData' (dateBack v k)) ->
  located priceData v lo hi r -> located priceData' v lo hi r.
Proof.
  intros Hext Hloc. inversion Hloc as [k p Hk Hbefore Hp Heq | Hnone Heq]; subst.
  - apply located_hit with (k := k); [exact Hk | | rewrite <- Hext by exact Hk; exact Hp].
    intros j Hj. apply firstOn_None. rewrite <- Hext by lia.
    apply firstOn_None. apply Hbefore. exact Hj.
  - apply located_miss. intros j Hj. apply firstOn_None. rewrite <- Hext by exact Hj.
    apply firstOn_None. apply Hnone. exact Hj.
Qed.

(** X3.  Only the points dated on one of the five days of the window
    count: dropping every other point of the series changes nothing. *)
Theorem findPriceOnDate_window_only priceData v :
  validTime v -> validTime (v - 4 * JSDate.msPerDay) ->
  findPriceOnDate (List.filter (inWindow v) priceData) (Some v)
  = findPriceOnDate priceData (Some v).
Proof.
  intros H0 H4.
  destruct (findPriceOnDate_located priceData v H0 H4) as [r [Hr Hloc]].
  destruct (findPriceOnDate_located (List.filter (inWindow v) priceData) v H0 H4)
    as [r' [Hr' Hloc']].
  rewrite Hr, Hr'. f_equal.
  apply (located_unique (List.filter (inWindow v) priceData) v 0 5); [exact Hloc'|].
  apply (located_ext priceData); [|exact Hloc].
  intros k Hk. symmetry. apply firstOn_filter.
  intros p Hp. unfold inWindow. apply existsb_exists. exists k. split.
  - assert (Hcases : k = 0 \/ k = 1 \/ k = 2 \/ k = 3 \/ k = 4) by lia.
    cbn. intuition.
  - apply String.eqb_eq. exact Hp.
Qed.

Section Rerun.
Variable Date_parse : string -> JSDate.t.

Lemma nextDateOf_later now now' evs next :
  now <= now' ->
  nextDateOf Date_parse now evs = Some next ->
  JSDate.gt (Date_parse next) (Some now') = true ->
  nextDateOf Date_parse now' evs = Some next.
Proof.
  intros Hle Hn Hgt.
  apply nextDateOf_first in Hn as [pre [e [post [-> [He [_ Hpre]]]]]].
  apply nextDateOf_first. exists pre, e, post. repeat split; auto.
  - rewrite He. exact Hgt.
  - intros q Hq. specialize (Hpre q Hq). unfold JSDate.gt in *.
    destruct (Date_parse (Earning.date q)) as [t|]; [|reflexivity].
    apply Z.ltb_ge. apply Z.ltb_ge in Hpre. lia.
Qed.

(** X13.  A later run on the same responses, at a time still before the
    date the summary carries as [nextDate], gives the same summary but
    for [lastUpdated], which follows the clock. *)
Theorem processSymbol_rerun io sym now s r :
  resultOf Date_parse io sym = Some r ->
  today io <= now ->
  JSDate.gt (Date_parse (nextDate r)) (Some now) = true ->
  resultOf Date_parse (rerun io now s) sym = Some (with_lastUpdated s r).
Proof.
  unfold resultOf, processSymbol, processSymbol_try, rerun.
  cbn [today calendar priceHistory redisReply stamp].
  intros H Hle Hgt. revert H.
  destruct (calendar io) as [| |[[[|e evs]|]]]; try discriminate. cbn [earnings].
  destruct (priceHistory io) as [| |[|priceData]]; try discriminate.
  destruct (length priceData <? 10)%nat; [discriminate|].
  destruct (collectMoves Date_parse priceData (e :: evs) []) as [moves|err]; [|discriminate].
  destruct (length moves =? 0)%nat; [discriminate|].
  destruct (nextDateOf Date_parse (today io) (e :: evs)) as [[|c next]|] eqn:Hn;
    try discriminate.
  unfold redis_set. destruct (redisReply io) as [|written]; [|discriminate].
  cbn. intros [= <-]. cbn [nextDate] in Hgt.
  rewrite (nextDateOf_later _ _ _ _ Hle Hn Hgt). reflexivity.
Qed.
End Rerun.

(* ===================================================================== *)
(** ** The further properties, on the worked inputs *)
(* ===================================================================== *)

(** Midnight and noon of 2024-01-06 find the same close. *)
Lemma findPriceOnDate_day_only_witness :
  validTime Example.saturdayNoon /\
  Example.saturday / JSDate.msPerDay = Example.saturdayNoon / JSDate.msPerDay /\
  findPriceOnDate Example.series (Some Example.saturdayNoon)
  = Return (Some (Number.of_Z 110)).
Proof.
  split; [apply validTime_compute; reflexivity|]. split; [reflexivity|].
  rewrite <- (findPriceOnDate_day_only Example.series Example.saturday Example.saturdayNoon);
    try (apply validTime_compute; reflexivity); reflexivity.
Defined.

(** The series of two points, latest first. *)
Lemma findPriceOnDate_any_order_witness :
  NoDup (map PricePoint.date Example.series) /\
  findPriceOnDate (rev Example.series) (Some Example.saturday)
  = Return (Some (Number.of_Z 110)).
Proof.
  assert (Hnd : NoDup (map PricePoint.date Example.series)).
  { apply (bool_decide_unpack _). vm_compute. exact I. }
  split; [exact Hnd|].
  rewrite <- (findPriceOnDate_any_order Example.series (rev Example.series)
                (Some Example.saturday) Hnd).
  - reflexivity.
  - apply perm_swap.
Defined.

(** Of the ten points of the history, two are within five days of
    2024-02-03, and they decide alone. *)
Lemma findPriceOnDate_window_only_witness :
  validTime Example.feb3 /\
  List.filter (inWindow Example.feb3) Example.prices
  = [Example.point "2024-01-31" 100; Example.point "2024-02-02" 110] /\
  findPriceOnDate Example.prices (Some Example.feb3) = Return (Some (Number.of_Z 110)).
Proof.
  split; [apply validTime_compute; reflexivity|]. split; [vm_compute; reflexivity|].
  rewrite <- (findPriceOnDate_window_only Example.prices Example.feb3);
    try (apply validTime_compute; reflexivity).
  vm_compute. reflexivity.
Defined.

(** An announcement on 2024-01-04, the series ending on 2024-01-03. *)
Lemma earningMove_stale_after_witness :
  JSDate.parseISODate "2024-01-04" = Some Example.jan4 /\
  firstOn Example.series (JSDate.isoDate (Example.jan4 - JSDate.msPerDay))
  = Some (Example.point "2024-01-03" 110) /\
  earningMove JSDate.parseISODate Example.series (Example.earning "2024-01-04")
  = Return (Some (S754_zero false)).
Proof.
  split; [vm_compute; reflexivity|]. split; [vm_compute; reflexivity|].
  apply (earningMove_stale_after JSDate.parseISODate Example.series
           (Example.earning "2024-01-04") Example.jan4
           (Example.point "2024-01-03" 110) 7740561859543040 (-46)).
  - vm_compute. reflexivity.
  - apply validTime_compute. reflexivity.
  - apply validTime_compute. reflexivity.
  - vm_compute. reflexivity.
  - vm_compute. reflexivity.
  - intros [p [Hin Hd]]. destruct Hin as [<- | [<- | []]]; vm_compute in Hd; discriminate Hd.
  - intros [p [Hin Hd]]. destruct Hin as [<- | [<- | []]]; vm_compute in Hd; discriminate Hd.
Defined.

Lemma avgMove_not_negative_witness :
  processSymbol JSDate.parseISODate Example.io_mean "AAPL" ∅
  = (<["earnings:AAPL" := (Example.summary, 2592000)]> ∅, Return (Some Example.summary)) /\
  sign_bit (avgMove Example.summary) = false.
Proof.
  assert (H : processSymbol JSDate.parseISODate Example.io_mean "AAPL" ∅
              = (<["earnings:AAPL" := (Example.summary, 2592000)]> ∅,
                 Return (Some Example.summary)))
    by (vm_compute; reflexivity).
  split; [exact H|].
  exact (proj1 (avgMove_not_negative JSDate.parseISODate Example.io_mean "AAPL" ∅ _ _ H)).
Defined.

(** The event dated "soon" voids a symbol that has a move and a future
    event. *)
Lemma unreadable_date_voids_symbol_witness :
  In (Example.earning "soon")
     [Example.earning "2023-06-01"; Example.earning "soon"; Example.earning "2024-12-01"] /\
  JSDate.parseISODate "soon" = None /\
  processSymbol JSDate.parseISODate Example.io_poison "AAPL" ∅ = (∅, Return None) /\
  exists err, processSymbol_try JSDate.parseISODate Example.io_poison "AAPL" ∅
              = (∅, Throw err).
Proof.
  assert (Hin : In (Example.earning "soon")
                  [Example.earning "2023-06-01"; Example.earning "soon";
                   Example.earning "2024-12-01"]) by (right; left; reflexivity).
  assert (Hd : JSDate.parseISODate (Earning.date (Example.earning "soon")) = None)
    by reflexivity.
  split; [exact Hin|]. split; [exact Hd|].
  destruct (unreadable_date_voids_symbol JSDate.parseISODate Example.io_poison "AAPL" ∅
              _ (Example.earning "soon") eq_refl Hin Hd) as [Hnull Hthrow].
  split; [exact Hnull|].
  apply (Hthrow Example.history); [reflexivity | vm_compute; lia].
Defined.

Lemma processSymbol_succeeds_iff_witness :
  exists evs priceData next,
    calendar Example.io_mean = Body {| earnings := Some evs |} /\
    priceHistory Example.io_mean = Body (PriceArray priceData) /\
    nextDateOf JSDate.parseISODate (today Example.io_mean) evs = Some next /\
    next = "2024-12-01".
Proof.
  assert (H : processSymbol JSDate.parseISODate Example.io_mean "AAPL" ∅
              = (<["earnings:AAPL" := (Example.summary, 2592000)]> ∅,
                 Return (Some Example.summary)))
    by (vm_compute; reflexivity).
  apply (proj1 (processSymbol_succeeds_iff JSDate.parseISODate Example.io_mean "AAPL" ∅ _ _))
    in H.
  destruct H as [evs [priceData [next [Hcal [Hpr [_ [_ [_ [Hnext [_ [_ [Hr _]]]]]]]]]]]].
  exists evs, priceData, next. repeat split; auto.
  apply (f_equal nextDate) in Hr. cbn in Hr. congruence.
Defined.

(** 2025-01-01 comes first in the calendar, after the past event. *)
Lemma nextDate_first_after_today_witness :
  exists st' r,
    processSymbol JSDate.parseISODate Example.io_unordered "AAPL" ∅
    = (st', Return (Some r)) /\
    nextDate r = "2025-01-01" /\
    exists pre e post,
      calendar Example.io_unordered = Body {| earnings := Some (pre ++ e :: post)%list |} /\
      nextDate r = Earning.date e /\
      JSDate.gt (JSDate.parseISODate (Earning.date e))
                (Some (today Example.io_unordered)) = true /\
      (forall q, In q pre ->
         JSDate.gt (JSDate.parseISODate (Earning.date q))
                   (Some (today Example.io_unordered)) = false).
Proof.
  destruct (processSymbol JSDate.parseISODate Example.io_unordered "AAPL" ∅)
    as [st' [[r|]|err]] eqn:Hp;
    try (apply (f_equal snd) in Hp; vm_compute in Hp; discriminate Hp).
  exists st', r. split; [reflexivity|]. split.
  - apply (f_equal snd) in Hp. vm_compute in Hp. injection Hp as <-. reflexivity.
  - exact (nextDate_first_after_today JSDate.parseISODate Example.io_unordered "AAPL" ∅
             st' r Hp).
Defined.

(** The calendar of [io_mean] is in date order; 2024-12-01 is its only
    future event. *)
Lemma nextDate_earliest_in_date_order_witness :
  processSymbol JSDate.parseISODate Example.io_mean "AAPL" ∅
  = (<["earnings:AAPL" := (Example.summary, 2592000)]> ∅, Return (Some Example.summary)) /\
  inDateOrder JSDate.parseISODate
    [Example.earning "2023-03-01"; Example.earning "2023-06-01";
     Example.earning "2023-09-01"; Example.earning "2024-12-01"] /\
  JSDate.gt (JSDate.parseISODate (nextDate Example.summary))
            (JSDate.parseISODate "2024-12-01") = false.
Proof.
  assert (H : processSymbol JSDate.parseISODate Example.io_mean "AAPL" ∅
              = (<["earnings:AAPL" := (Example.summary, 2592000)]> ∅,
                 Return (Some Example.summary)))
    by (vm_compute; reflexivity).
  assert (Hs : inDateOrder JSDate.parseISODate
                 [Example.earning "2023-03-01"; Example.earning "2023-06-01";
                  Example.earning "2023-09-01"; Example.earning "2024-12-01"])
    by (unfold inDateOrder; repeat constructor).
  split; [exact H|]. split; [exact Hs|].
  apply (nextDate_earliest_in_date_order JSDate.parseISODate Example.io_mean "AAPL" ∅ _ _ _
           H eq_refl Hs (Example.earning "2024-12-01")).
  - right. right. right. left. reflexivity.
  - reflexivity.
Defined.

(** Two past announcements, moves and all, and no summary. *)
Lemma no_future_event_no_summary_witness :
  observations JSDate.parseISODate Example.history
    [Example.earning "2023-03-01"; Example.earning "2023-06-01"]
  = [Number.of_Z 5; Number.of_Z 10] /\
  processSymbol JSDate.parseISODate Example.io_past "AAPL" ∅ = (∅, Return None).
Proof.
  split; [vm_compute; reflexivity|].
  apply (no_future_event_no_summary JSDate.parseISODate Example.io_past "AAPL" ∅
           [Example.earning "2023-03-01"; Example.earning "2023-06-01"] eq_refl).
  intros e [<- | [<- | []]]; reflexivity.
Defined.

(** The entry of "MSFT" is left alone by the call for "AAPL". *)
Lemma processSymbol_cache_locality_witness :
  let st : Store := {[ "earnings:MSFT" := (Example.summary, 60) ]} in
  fst (processSymbol JSDate.parseISODate Example.io_mean "AAPL" st) !! "earnings:MSFT"
  = Some (Example.summary, 60) /\
  fst (processSymbol JSDate.parseISODate Example.io_past "AAPL" st) = st.
Proof.
  intros st.
  destruct (processSymbol_cache_locality JSDate.parseISODate Example.io_mean "AAPL" st)
    as [Hother _].
  destruct (processSymbol_cache_locality JSDate.parseISODate Example.io_past "AAPL" st)
    as [_ Hnull].
  split.
  - rewrite Hother by discriminate. reflexivity.
  - apply Hnull; [discriminate | vm_compute; reflexivity].
Defined.

(** A run one day later gives the same summary with the new time; a run
    on 2024-12-01, the day of the next announcement, gives none. *)
Lemma processSymbol_rerun_witness :
  resultOf JSDate.parseISODate Example.io_mean "AAPL" = Some Example.summary /\
  resultOf JSDate.parseISODate
    (rerun Example.io_mean Example.june2 "2024-06-02T00:00:00.000Z") "AAPL"
  = Some {| symbol := "AAPL"; nextDate := "2024-12-01"; avgMove := Number.of_Z 10;
            lastUpdated := "2024-06-02T00:00:00.000Z" |} /\
  resultOf JSDate.parseISODate
    (rerun Example.io_mean Example.december1 "2024-12-01T00:00:00.000Z") "AAPL"
  = None.
Proof.
  assert (H : resultOf JSDate.parseISODate Example.io_mean "AAPL" = Some Example.summary)
    by (vm_compute; reflexivity).
  split; [exact H|]. split; [|vm_compute; reflexivity].
  apply (processSymbol_rerun JSDate.parseISODate Example.io_mean "AAPL" Example.june2
           "2024-06-02T00:00:00.000Z" Example.summary H).
  - apply Z.leb_le. vm_compute. reflexivity.
  - vm_compute. reflexivity.
Defined.

(** A run over three symbols leaves the entry of a fourth alone, and
    stores the summaries of the two that went through. *)
Lemma main_touches_only_its_keys_witness :
  let st : Store := {[ "earnings:TSLA" := (Example.summary, 60) ]} in
  exists run,
    main JSDate.parseISODate Example.world Example.trio st = Return run /\
    cache run !! "earnings:TSLA" = Some (Example.summary, 60).
Proof.
  intros st.
  destruct (main_run JSDate.parseISODate Example.world Example.trio st) as [run [Hrun _]].
  exists run. split; [exact Hrun|].
  rewrite (main_touches_only_its_keys JSDate.parseISODate Example.world Example.trio st
             run "earnings:TSLA" Hrun).
  - reflexivity.
  - intros sym [<- | [<- | [<- | []]]]; discriminate.
Defined.

Lemma main_final_cache_witness :
  NoDup Example.trio /\
  exists run r,
    main JSDate.parseISODate Example.world Example.trio ∅ = Return run /\
    allResults JSDate.parseISODate Example.world Example.trio !! 2%nat = Some (Some r) /\
    symbol r = "GOOG" /\
    cache run !! "earnings:GOOG" = Some (r, 2592000) /\
    cache run !! "earnings:MSFT" = None.
Proof.
  assert (Hnd : NoDup Example.trio) by (apply (bool_decide_unpack _); vm_compute; exact I).
  split; [exact Hnd|].
  destruct (main_run JSDate.parseISODate Example.world Example.trio ∅) as [run [Hrun _]].
  destruct (allResults JSDate.parseISODate Example.world Example.trio !! 2%nat)
    as [[r|]|] eqn:Hres; try (vm_compute in Hres; discriminate Hres).
  exists run, r. split; [exact Hrun|]. split; [reflexivity|]. split.
  - vm_compute in Hres. injection Hres as <-. reflexivity.
  - split.
    + apply (proj1 (main_final_cache JSDate.parseISODate Example.world Example.trio ∅ run
                      2%nat "GOOG" Hrun Hnd eq_refl) r Hres).
    + assert (Hnull : allResults JSDate.parseISODate Example.world Example.trio !! 0%nat
                      = Some None) by (vm_compute; reflexivity).
      assert (Hreply : redisReply (Example.world 0) <> SetFailed true) by discriminate.
      pose proof (proj2 (main_final_cache JSDate.parseISODate Example.world Example.trio
                           ∅ run 0%nat "MSFT" Hrun Hnd eq_refl) Hnull Hreply) as Hm.
      rewrite lookup_empty in Hm. exact Hm.
Defined.

(** A 404 on the symbol list ends the process; a 200 with two records
    runs [main] over the two codes. *)
Lemma script_exit_or_complete_witness :
  script JSDate.parseISODate (fetchJSON Example.twoStocks (Response 404 ["Not Found"]))
         Example.world ∅ = Exit 1 ∅ /\
  exists run,
    script JSDate.parseISODate
           (fetchJSON Example.twoStocks (Response 200 ["[{"; "}]"])) Example.world ∅
    = Completed run /\
    processed run = 2%nat.
Proof.
  split.
  - apply (proj2 (script_exit_or_complete JSDate.parseISODate Example.twoStocks
                    (Response 404 ["Not Found"]) Example.world ∅)).
    intros chunks stocks H. discriminate H.
  - destruct (proj1 (script_exit_or_complete JSDate.parseISODate Example.twoStocks
                       (Response 200 ["[{"; "}]"]) Example.world ∅)
                ["[{"; "}]"] [{| Code := "MSFT" |}; {| Code := "AAPL" |}] eq_refl eq_refl)
      as [run [Hscript [_ Hpr]]].
    exists run. split; [exact Hscript | exact Hpr].
Defined.
